(** * OpenspaceAutomation: the open-space pipeline of [main.py] and [utils.py]

    A shallow embedding of the requirement evaluator, the candidate
    generator, filter, ranker and fitter.  The Rhino / Grasshopper geometry
    kernel is external to the repository: its operations are the fields of
    a [Kernel] record and every definition is parametric in it.  Python
    floats are read as real numbers; Python exceptions as the [Raise]
    branch of a small error monad.  Where rounding decides what the program
    does, the arithmetic is replayed in binary64. *)

From Corelib Require Import PrimFloat.
From Stdlib Require Import Reals Lra List String Bool ZArith.
From Stdlib Require Import Permutation Sorted.
Import ListNotations.

Open Scope R_scope.

(** ** Exceptions *)

Inductive PyError : Type :=
| IndexError
| ValueError
| ZeroDivisionError
| TypeError.

Inductive result (A : Type) : Type :=
| Ok (a : A)
| Raise (e : PyError).

Arguments Ok {A} a.
Arguments Raise {A} e.

Definition bind {A B : Type} (m : result A) (k : A -> result B) : result B :=
  match m with
  | Ok a => k a
  | Raise e => Raise e
  end.

Notation "x <- m ;; k" := (bind m (fun x => k))
  (at level 61, m at next level, right associativity).

(** [[f(x) for x in xs]] where [f] may raise: left to right, first
    exception wins. *)
Fixpoint mapM {A B : Type} (f : A -> result B) (xs : list A) : result (list B) :=
  match xs with
  | [] => Ok []
  | x :: xs' =>
      y <- f x ;;
      ys <- mapM f xs' ;;
      Ok (y :: ys)
  end.

(** ** Python arithmetic on floats, read over the reals *)

Definition Rltb (a b : R) : bool := if Rlt_dec a b then true else false.
Definition Rleb (a b : R) : bool := if Rle_dec a b then true else false.
Definition Reqb (a b : R) : bool := if Req_dec_T a b then true else false.

(** [max(a, b)]: the first argument is kept unless the second is strictly
    greater. *)
Definition py_max (a b : R) : R := if Rltb a b then b else a.

(** [sum(...)] over a generator of floats. *)
Definition py_sum (xs : list R) : R := fold_left Rplus xs 0.

(** [x in (s1, s2, ...)] for strings. *)
Definition str_in (x : string) (xs : list string) : bool :=
  existsb (String.eqb x) xs.

(** ** utils.py constants *)

Definition BIGNUM : R := 10000000.
Definition TOL : R := 0.001.
Definition DIST_TOL : R := 0.01.
Definition AREA_TOL : R := 0.1.
Definition OP_TOL : R := 0.00001.

(** Modelled from the spec: the kernel's [region_relationship]
    classification as section 6 lists it ([disjoint | touching | overlapping |
    contained]); [geo.RegionContainment] is declared by the host library, the
    source only names its member [Disjoint]. *)
Inductive RegionContainment : Type :=
| Disjoint
| Touching
| Overlapping
| Contained.

Definition RegionContainment_eqb (a b : RegionContainment) : bool :=
  match a, b with
  | Disjoint, Disjoint | Touching, Touching
  | Overlapping, Overlapping | Contained, Contained => true
  | _, _ => false
  end.

(** ** The geometry kernel *)

Record Kernel : Type := {
  Curve : Type;
  Point3d : Type;
  (** [geo.AreaMassProperties.Compute(c).Area] *)
  Area : Curve -> R;
  (** [geo.Curve.PlanarCurveCollision(a, b, WorldXY, tol)] *)
  PlanarCurveCollision : Curve -> Curve -> R -> bool;
  (** [ghcomp.Explode(c, True).vertices] *)
  Explode_vertices : Curve -> list Point3d;
  (** [ghcomp.CurveXCurve(a, b).points] *)
  CurveXCurve_points : Curve -> Curve -> list Point3d;
  (** [ghcomp.CurveClosestPoint(pt, c).parameter] *)
  CurveClosestPoint_parameter : Point3d -> Curve -> R;
  (** [ghcomp.Shatter(c, parameters)] *)
  Shatter : Curve -> list R -> list Curve;
  (** [geo.Curve.JoinCurves(segments)] *)
  JoinCurves : list Curve -> list Curve;
  (** [c.GetLength()] *)
  GetLength : Curve -> R;
  (** [c.PointAt(t)] *)
  PointAt : Curve -> R -> Point3d;
  (** [ghcomp.Scale(c, center, factor).geometry] *)
  Scale : Curve -> Point3d -> R -> Curve;
  (** [geo.Curve.PlanarClosedCurveRelationship(a, b, WorldXY, tol)] *)
  PlanarClosedCurveRelationship : Curve -> Curve -> R -> RegionContainment;
  (** [ghcomp.ClipperComponents.PolylineOffset(crvs, dists, plane, tol,
      closed_fillet, open_fillet, miter)]: the pair of its [contour] and
      [holes] outputs. *)
  PolylineOffset : list Curve -> R -> R -> list Curve * list Curve
}.

Arguments Area {k} _.
Arguments PlanarCurveCollision {k} _ _ _.
Arguments Explode_vertices {k} _.
Arguments CurveXCurve_points {k} _ _.
Arguments CurveClosestPoint_parameter {k} _ _.
Arguments Shatter {k} _ _.
Arguments JoinCurves {k} _.
Arguments GetLength {k} _.
Arguments PointAt {k} _ _.
Arguments Scale {k} _ _ _.
Arguments PlanarClosedCurveRelationship {k} _ _ _.
Arguments PolylineOffset {k} _ _ _.

Section Pipeline.

Context {K : Kernel}.

(** ** Site model (main.py, classes Lot, Road, Building) *)

Record Lot : Type := {
  lot_region : Curve K;
  lot_district_use : string;
  lot_area : R
}.

Definition new_Lot (region : Curve K) (district_use : string) : Lot :=
  {| lot_region := region;
     lot_district_use := district_use;
     lot_area := Area region |}.

Record Road : Type := { road_curve : Curve K }.

Record Building : Type := {
  building_regions : list (Curve K);
  building_floor_area : R;
  building_floor_count : Z;
  building_total_area : R;
  building_use : string
}.

Definition new_Building (regions : list (Curve K)) (floor_count : Z) (use : string)
  : Building :=
  let floor_area := py_sum (map Area regions) in
  {| building_regions := regions;
     building_floor_area := floor_area;
     building_floor_count := floor_count;
     building_total_area := floor_area * IZR floor_count;
     building_use := use |}.

(** ** OpenspaceRequirement *)

Definition MIN_AREA : R := 90.0.
Definition MIN_DEPTH : R := 9.0.
Definition AREA_RATIO : R := 0.1.
Definition ROAD_ADJUST_RATIO : R := 0.25.

Definition district_uses : list string :=
  ["일반주거지역"; "준주거지역"; "상업지역"; "준공업지역"]%string.

Definition building_uses : list string :=
  ["문화시설"; "집회시설"; "종교시설"; "판매시설"; "운수시설"; "업무시설";
   "숙박시설"]%string.

Record OpenspaceRequirement : Type := { requirement_area : R }.

(** [_get_target_information]: the method either returns early, leaving
    [self.area] as it found it, or overwrites it; the result is the value of
    [self.area] afterwards. *)
Definition _get_target_information (self_area : R) (lot : Lot) (building : Building)
  : R :=
  if negb (str_in (lot_district_use lot) district_uses) then self_area
  else if negb (str_in (building_use building) building_uses) then self_area
  else if Rltb (building_total_area building) 5000 then self_area
  else py_max (lot_area lot * AREA_RATIO) MIN_AREA.

(** [OpenspaceRequirement.__init__] *)
Definition new_OpenspaceRequirement (lot : Lot) (building : Building)
  : OpenspaceRequirement :=
  {| requirement_area := _get_target_information 0 lot building |}.

(** ** utils.py *)

(** [get_overlap_crv(crv_a, crv_b)] *)
Definition get_overlap_crv (crv_a crv_b : Curve K) : list (Curve K) :=
  if negb (PlanarCurveCollision crv_a crv_b TOL) then []
  else
    let pts_to_split := Explode_vertices crv_a ++ CurveXCurve_points crv_a crv_b in
    match pts_to_split with
    | [] => []
    | _ :: _ =>
        let parameters :=
          map (fun pt => CurveClosestPoint_parameter pt crv_a) pts_to_split in
        let segments := Shatter crv_a parameters in
        let overlaped_segments :=
          filter (fun seg => PlanarCurveCollision seg crv_b TOL) segments in
        match overlaped_segments with
        | [] => []
        | _ :: _ => JoinCurves overlaped_segments
        end
    end.

(** [get_overlap_length(crv_a, crv_b)] *)
Definition get_overlap_length (crv_a crv_b : Curve K) : R :=
  let overlap_crvs := get_overlap_crv crv_a crv_b in
  match overlap_crvs with
  | [] => 0.0
  | _ :: _ => fold_left (fun length crv => length + GetLength crv) overlap_crvs 0.0
  end.

(** [has_region_intersection(region, other_region, tol=TOL)] *)
Definition has_region_intersection (region other_region : Curve K) (tol : R) : bool :=
  let relationship := PlanarClosedCurveRelationship region other_region tol in
  if RegionContainment_eqb relationship Disjoint then false else true.

(** [Offset._PolylineOffsetResult] *)
Record _PolylineOffsetResult : Type := {
  contour : list (Curve K);
  holes : list (Curve K)
}.

(** [Offset.polyline_offset] behind [convert_io_to_list]: the decorator has
    already wrapped a single curve into a one-element list, on the way in
    and on the way out. *)
Definition polyline_offset (crvs : list (Curve K)) (dists : R) (miter : R)
  : result _PolylineOffsetResult :=
  match crvs with
  | [] => Raise ValueError
  | _ :: _ =>
      let result := PolylineOffset crvs dists miter in
      Ok {| contour := fst result; holes := snd result |}
  end.

(** [offset_regions_inward(regions, dist, miter=BIGNUM)], on the list of
    curves the generator passes. *)
Definition offset_regions_inward (regions : list (Curve K)) (dist : R) (miter : R)
  : result (list (Curve K)) :=
  if Reqb dist 0 then Ok regions
  else
    r <- polyline_offset regions dist miter ;;
    Ok (holes r).

(** [offset_region_outward(region, dist, miter=BIGNUM)]: its argument is a
    curve, so the [isinstance] test passes; [.contour[0]] raises when the
    contour list is empty. *)
Definition offset_region_outward (region : Curve K) (dist : R) (miter : R)
  : result (Curve K) :=
  if Reqb dist 0 then Ok region
  else
    r <- polyline_offset [region] dist miter ;;
    match contour r with
    | [] => Raise IndexError
    | c :: _ => Ok c
    end.

(** [offset_regions_outward(regions, dist, miter=BIGNUM)], on a list: the
    list comprehension over [offset_region_outward]. *)
Definition offset_regions_outward (regions : list (Curve K)) (dist : R) (miter : R)
  : result (list (Curve K)) :=
  mapM (fun region => offset_region_outward region dist miter) regions.

(** ** Python builtins used by the generator *)

(** [sorted(xs, key=key, reverse=True)].  Python's sort is stable and
    [reverse=True] keeps the original order of elements with equal keys, so
    an element travels left only past elements of strictly smaller key: here
    by insertion from the right end of the list. *)
Fixpoint insert_desc {A : Type} (key : A -> R) (x : A) (l : list A) : list A :=
  match l with
  | [] => [x]
  | y :: l' =>
      if Rltb (key x) (key y) then y :: insert_desc key x l'
      else x :: y :: l'
  end.

Fixpoint sorted_reverse {A : Type} (key : A -> R) (l : list A) : list A :=
  match l with
  | [] => []
  | x :: l' => insert_desc key x (sorted_reverse key l')
  end.

(** [x ** 0.5] on a float: the square root, except that a negative base
    gives a complex number, which no kernel operation takes as a factor. *)
Definition pow_half (x : R) : result R :=
  if Rltb x 0 then Raise TypeError else Ok (sqrt x).

(** [a / b] on floats. *)
Definition py_div (a b : R) : result R :=
  if Reqb b 0 then Raise ZeroDivisionError else Ok (a / b).

(** ** OepnspaceGenerator (main.py) *)

Record OepnspaceGenerator : Type := {
  lot : Lot;
  roads : list Road;
  building : Building;
  parking_region : Curve K;
  requirement : OpenspaceRequirement
}.

Section Generator.

Variable self : OepnspaceGenerator.

(** The building-collision test of [get_candidate_regions]:
    [any(has_region_intersection(region, other) for other in building.regions)]. *)
Definition hits_building (region : Curve K) : bool :=
  existsb (fun other_region => has_region_intersection region other_region TOL)
          (building_regions (building self)).

(** The [for region in inward_regions] loop of [get_candidate_regions]. *)
Fixpoint filter_inward_regions (inward_regions : list (Curve K)) : list (Curve K) :=
  match inward_regions with
  | [] => []
  | region :: rest =>
      if hits_building region then filter_inward_regions rest
      else region :: filter_inward_regions rest
  end.

(** [get_candidate_regions] *)
Definition get_candidate_regions : result (list (Curve K)) :=
  inward_regions <-
    offset_regions_inward
      ([lot_region (lot self); parking_region self] ++ building_regions (building self))
      (MIN_DEPTH / 2) BIGNUM ;;
  let filtered_inward_regions := filter_inward_regions inward_regions in
  offset_regions_outward filtered_inward_regions (MIN_DEPTH / 2) BIGNUM.

(** [is_road_adjacent], with the road list it loops over made explicit. *)
Fixpoint is_road_adjacent_loop (rs : list Road) (candidate : Curve K) : bool :=
  match rs with
  | [] => false
  | road :: rs' =>
      let candidate_overlap_length := get_overlap_length candidate (road_curve road) in
      let lot_overlap_length :=
        get_overlap_length (lot_region (lot self)) (road_curve road) in
      if Rltb (lot_overlap_length * ROAD_ADJUST_RATIO) candidate_overlap_length
      then true
      else is_road_adjacent_loop rs' candidate
  end.

Definition is_road_adjacent (candidate : Curve K) : bool :=
  is_road_adjacent_loop (roads self) candidate.

(** [filter_candidate_regions] *)
Definition filter_candidate_regions (candidates : list (Curve K)) : list (Curve K) :=
  let filtered_candidates := filter (fun x => is_road_adjacent x) candidates in
  let filtered_candidates :=
    filter (fun x => Rleb MIN_AREA (Area x)) filtered_candidates in
  filtered_candidates.

(** [sort_candidate_regions] *)
Definition sort_candidate_regions (candidates : list (Curve K)) : list (Curve K) :=
  sorted_reverse Area candidates.

(** [reduce_region], the closure inside [adjust_candidate_regions];
    [region.Duplicate()] is a copy of the same value. *)
Definition reduce_region (region : Curve K) (target_area : R) : result (Curve K) :=
  let area := Area region in
  if Rleb area target_area then Ok region
  else
    ratio <- py_div target_area area ;;
    match get_overlap_crv region (lot_region (lot self)) with
    | [] => Raise IndexError
    | crv :: _ =>
        let center_of_scale := PointAt crv 0.5 in
        scale_factor <- pow_half ratio ;;
        Ok (Scale region center_of_scale scale_factor)
    end.

(** The [for candidate in candidates] loop of [adjust_candidate_regions],
    with its two accumulators. *)
Fixpoint adjust_loop (candidates : list (Curve K))
    (adjusted_candidates : list (Curve K)) (total_area : R)
  : result (list (Curve K)) :=
  match candidates with
  | [] => Ok adjusted_candidates
  | candidate :: rest =>
      let area := Area candidate in
      shrunk <-
        (if Rltb (requirement_area (requirement self)) (total_area + area)
         then
           candidate <-
             reduce_region candidate
               (requirement_area (requirement self) - total_area) ;;
           Ok (candidate, Area candidate)
         else Ok (candidate, area)) ;;
      let candidate := fst shrunk in
      let area := snd shrunk in
      let adjusted_candidates := adjusted_candidates ++ [candidate] in
      let total_area := total_area + area in
      if Rleb (requirement_area (requirement self)) total_area
      then Ok adjusted_candidates
      else adjust_loop rest adjusted_candidates total_area
  end.

(** [adjust_candidate_regions] *)
Definition adjust_candidate_regions (candidates : list (Curve K))
  : result (list (Curve K)) :=
  adjust_loop candidates [] 0.0.

(** [get_openspace] *)
Definition get_openspace : result (list (Curve K)) :=
  candidates <- get_candidate_regions ;;
  let filtered_candidates := filter_candidate_regions candidates in
  let sorted_candidates := sort_candidate_regions filtered_candidates in
  adjust_candidate_regions sorted_candidates.

End Generator.

End Pipeline.

Arguments Lot : clear implicits.
Arguments Road : clear implicits.
Arguments Building : clear implicits.
Arguments OepnspaceGenerator : clear implicits.

(** ** A tabulated kernel

    A small kernel to run the pipeline on: a curve is a square that carries
    the answers the kernel gives about it.  [sh_side] is its side (its length
    when it stands for a boundary piece), [sh_pieces] the lengths of the
    pieces of its boundary that run along another curve of the site,
    [sh_class] its classification against a building footprint, [sh_holes]
    and [sh_contour] the loops an offset of it yields. *)

#[local] Unset Elimination Schemes.

Inductive shape : Type := Shape {
  sh_side : R;
  sh_pieces : list R;
  sh_class : RegionContainment;
  sh_holes : list shape;
  sh_contour : list shape
}.

#[local] Set Elimination Schemes.

Definition plain (side : R) (pieces : list R) : shape :=
  Shape side pieces Disjoint [] [].

Definition piece (len : R) : shape := plain len [len].

Definition shape_scale (c : shape) (center : R * R) (factor : R) : shape :=
  Shape (factor * sh_side c) (map (Rmult factor) (sh_pieces c)) (sh_class c)
        (sh_holes c) (sh_contour c).

Definition shape_collides (a : shape) : bool :=
  match sh_pieces a with
  | [] => false
  | _ :: _ => true
  end.

Definition tabulated : Kernel :=
  {| Curve := shape;
     Point3d := R * R;
     Area := fun c => sh_side c * sh_side c;
     PlanarCurveCollision := fun a _ _ => shape_collides a;
     Explode_vertices := fun _ => [(0, 0)];
     CurveXCurve_points := fun _ _ => [];
     CurveClosestPoint_parameter := fun _ _ => 0;
     Shatter := fun a _ => map piece (sh_pieces a);
     JoinCurves := fun segs => segs;
     GetLength := sh_side;
     PointAt := fun c t => (t * sh_side c, 0);
     Scale := shape_scale;
     PlanarClosedCurveRelationship := fun a _ _ => sh_class a;
     PolylineOffset := fun crvs _ _ => (flat_map sh_contour crvs, flat_map sh_holes crvs) |}.

(** A site for it: a 50 m lot in a general residential district with 50 m of
    road frontage, an office building of 5 floors of 1600 m2, and three
    pockets of free ground left by the inward offset. *)

Definition cand_a : Curve tabulated := plain 15 [20].
Definition cand_b : Curve tabulated := plain 10 [15].
Definition cand_inner : Curve tabulated := plain 12 [].

(** The inward region whose outward offset is [c]. *)
Definition pocket (c : shape) : shape :=
  Shape (sh_side c - 9) [] Disjoint [] [c].

(** An inward region whose outward offset has no contour. *)
Definition pocket_degenerate : shape := Shape 1 [] Disjoint [] [].

(** An inward region that touches the building footprint. *)
Definition pocket_touching : shape := Shape 3 [] Touching [] [plain 12 [20]].

Definition site_lot_region : shape :=
  Shape 50 [50] Contained [pocket cand_a; pocket cand_b] [].

Definition site_footprint : shape := Shape 40 [] Overlapping [] [].
Definition site_parking : shape := Shape 5 [] Disjoint [] [].
Definition site_road : Road tabulated := @Build_Road tabulated (plain 50 [50]).

Definition site_lot : Lot tabulated := new_Lot (K := tabulated) site_lot_region "일반주거지역".

Definition site_building : Building tabulated :=
  new_Building (K := tabulated) [site_footprint] 5 "업무시설".

Definition site : OepnspaceGenerator tabulated :=
  {| lot := site_lot;
     roads := [site_road];
     building := site_building;
     parking_region := site_parking;
     requirement := new_OpenspaceRequirement site_lot site_building |}.

(** The same site with a requirement given directly. *)
Definition site_requiring (area : R) : OepnspaceGenerator tabulated :=
  {| lot := site_lot;
     roads := [site_road];
     building := site_building;
     parking_region := site_parking;
     requirement := {| requirement_area := area |} |}.

(** The same site without roads. *)
Definition site_without_roads : OepnspaceGenerator tabulated :=
  {| lot := site_lot;
     roads := [];
     building := site_building;
     parking_region := site_parking;
     requirement := new_OpenspaceRequirement site_lot site_building |}.

(** The same site with other inward regions. *)
Definition site_with_pockets (pockets : list shape) : OepnspaceGenerator tabulated :=
  {| lot := new_Lot (K := tabulated) (Shape 50 [50] Contained pockets []) "일반주거지역";
     roads := [site_road];
     building := site_building;
     parking_region := site_parking;
     requirement := new_OpenspaceRequirement site_lot site_building |}.

(** The reading of "spatially intersects" that excludes contact at isolated
    points: shared boundary or shared area only. *)
Definition intersects_beyond_touching (r : RegionContainment) : bool :=
  match r with
  | Overlapping | Contained => true
  | Disjoint | Touching => false
  end.

(** What the fitter relies on from the kernel: areas are not negative, and a
    similarity scaling by [f] multiplies the area by [f * f]. *)
Record KernelLaws (K : Kernel) : Prop := {
  Area_nonneg : forall c : Curve K, 0 <= Area c;
  Scale_Area : forall (c : Curve K) (p : Point3d K) (f : R),
      0 <= f -> Area (Scale c p f) = f * f * Area c
}.

(** [sum(area(r) for r in regions)] *)
Definition total_area {K : Kernel} (regions : list (Curve K)) : R :=
  py_sum (map Area regions).

(** [a] may stand before [b] in a descending order of keys. *)
Definition key_ge {A : Type} (key : A -> R) (a b : A) : Prop := key b <= key a.

(** The elements of key [v], in the order the list has them. *)
Definition with_key {A : Type} (key : A -> R) (v : R) (l : list A) : list A :=
  filter (fun x => Reqb (key x) v) l.

(** ** The rest of utils.py *)

Section Utils.

Context {K : Kernel}.

(** [is_intersection_with_other_crvs(crv, crvs)] *)
Definition is_intersection_with_other_crvs (crv : Curve K) (crvs : list (Curve K))
  : bool :=
  existsb (fun other_crv => PlanarCurveCollision crv other_crv OP_TOL) crvs.

End Utils.

(** How an accepted region relates to the ranked candidate in its place: it
    is that candidate, or that candidate scaled by a factor in [0, 1) about
    the middle of its first overlap curve with the lot boundary. *)
Definition kept_or_shrunk {K : Kernel} (self : OepnspaceGenerator K)
    (accepted ranked : Curve K) : Prop :=
  accepted = ranked \/
  exists crv crvs f,
    get_overlap_crv ranked (lot_region (lot self)) = crv :: crvs /\
    0 <= f < 1 /\
    accepted = Scale ranked (PointAt crv 0.5) f.

(** ** More sites for the tabulated kernel *)

(** The site with a second road, on which nothing fronts. *)
Definition site_two_roads : OepnspaceGenerator tabulated :=
  {| lot := site_lot;
     roads := [site_road; @Build_Road tabulated (plain 30 [])];
     building := site_building;
     parking_region := site_parking;
     requirement := new_OpenspaceRequirement site_lot site_building |}.

(** The site without roads and with other inward regions. *)
Definition site_without_roads_with_pockets (pockets : list shape)
  : OepnspaceGenerator tabulated :=
  {| lot := new_Lot (K := tabulated) (Shape 50 [50] Contained pockets []) "일반주거지역";
     roads := [];
     building := site_building;
     parking_region := site_parking;
     requirement := new_OpenspaceRequirement site_lot site_building |}.

(** ** A kernel that rounds

    The tabulated kernel, except that a scaled square comes out short by one
    part in 2^52 on its side: the area measured after a scaling is close to,
    and not exactly, the square of the factor times the area before. *)

Definition shortfall : R := 1 / 4503599627370496.

Definition rounding : Kernel :=
  {| Curve := shape;
     Point3d := R * R;
     Area := fun c => sh_side c * sh_side c;
     PlanarCurveCollision := fun a _ _ => shape_collides a;
     Explode_vertices := fun _ => [(0, 0)];
     CurveXCurve_points := fun _ _ => [];
     CurveClosestPoint_parameter := fun _ _ => 0;
     Shatter := fun a _ => map piece (sh_pieces a);
     JoinCurves := fun segs => segs;
     GetLength := sh_side;
     PointAt := fun c t => (t * sh_side c, 0);
     Scale := fun c center factor => shape_scale c center (factor * (1 - shortfall));
     PlanarClosedCurveRelationship := fun a _ _ => sh_class a;
     PolylineOffset := fun crvs _ _ => (flat_map sh_contour crvs, flat_map sh_holes crvs) |}.

(** Two ranked candidates of 529 m2 and 100 m2 on the lot boundary, and the
    site with a requirement given directly. *)
Definition wide : Curve rounding := plain 23 [20].
Definition narrow : Curve rounding := plain 10 [15].

Definition rounding_site (area : R) : OepnspaceGenerator rounding :=
  {| lot := new_Lot (K := rounding) site_lot_region "일반주거지역";
     roads := [@Build_Road rounding (plain 50 [50])];
     building := new_Building (K := rounding) [site_footprint] 5 "업무시설";
     parking_region := site_parking;
     requirement := {| requirement_area := area |} |}.

(** ** The fitter's arithmetic in binary64

    The loop of [adjust_candidate_regions] on areas alone, in the binary64
    arithmetic Python floats have, for candidates that all have an overlap
    with the lot boundary and a kernel that measures the area of a region
    scaled by [f] as [area * (f * f)].  The result is the list of the areas
    measured for the accepted regions. *)

(** The area [reduce_region] leaves: [area] itself, or the area measured
    after scaling by [(target_area / area) ** 0.5]. *)
Definition reduce_area_binary64 (area target_area : float) : float :=
  if PrimFloat.leb area target_area then area
  else
    let scale_factor := PrimFloat.sqrt (PrimFloat.div target_area area) in
    PrimFloat.mul area (PrimFloat.mul scale_factor scale_factor).

Fixpoint adjust_areas_binary64 (requirement_area : float) (areas : list float)
    (adjusted_areas : list float) (total_area : float) : list float :=
  match areas with
  | [] => adjusted_areas
  | area :: rest =>
      let area :=
        if PrimFloat.ltb requirement_area (PrimFloat.add total_area area)
        then reduce_area_binary64 area (PrimFloat.sub requirement_area total_area)
        else area in
      let adjusted_areas := adjusted_areas ++ [area] in
      let total_area := PrimFloat.add total_area area in
      if PrimFloat.leb requirement_area total_area
      then adjusted_areas
      else adjust_areas_binary64 requirement_area rest adjusted_areas total_area
  end.

(** ** A kernel tabulated curve by curve

    As the tabulated kernel, except that a curve has a name and carries, for
    each other curve it runs along, that curve's name and the length of the
    common piece: two curves collide when the first runs along the second. *)

#[local] Unset Elimination Schemes.

Inductive named_shape : Type := NamedShape {
  ns_name : nat;
  ns_side : R;
  ns_along : list (nat * R);
  ns_class : RegionContainment;
  ns_holes : list named_shape;
  ns_contour : list named_shape
}.

#[local] Set Elimination Schemes.

Definition runs_along (a b : named_shape) : bool :=
  existsb (fun e => Nat.eqb (fst e) (ns_name b)) (ns_along a).

(** The piece of a curve that lies on the curve named [n]. *)
Definition named_piece (e : nat * R) : named_shape :=
  NamedShape 0 (snd e) [e] Disjoint [] [].

Definition named_scale (c : named_shape) (center : R * R) (factor : R) : named_shape :=
  NamedShape (ns_name c) (factor * ns_side c)
             (map (fun e => (fst e, factor * snd e)) (ns_along c))
             (ns_class c) (ns_holes c) (ns_contour c).

Definition by_curve : Kernel :=
  {| Curve := named_shape;
     Point3d := R * R;
     Area := fun c => ns_side c * ns_side c;
     PlanarCurveCollision := fun a b _ => runs_along a b;
     Explode_vertices := fun _ => [(0, 0)];
     CurveXCurve_points := fun _ _ => [];
     CurveClosestPoint_parameter := fun _ _ => 0;
     Shatter := fun a _ => map named_piece (ns_along a);
     JoinCurves := fun segs => segs;
     GetLength := ns_side;
     PointAt := fun c t => (t * ns_side c, 0);
     Scale := named_scale;
     PlanarClosedCurveRelationship := fun a _ _ => ns_class a;
     PolylineOffset := fun crvs _ _ => (flat_map ns_contour crvs, flat_map ns_holes crvs) |}.

(** A site with a courtyard: a lot of 80 m by 80 m (curve 1) with 80 m on the
    street (curve 2); inside it a lane given as a second road (curve 3), a
    U-shaped office building of 5 floors of 1600 m2 (curve 4) and a parking
    region (curve 5).  The courtyard of 30 m by 30 m (curve 6) is closed in
    by the building on three sides and by the parking region on the fourth,
    where the lane runs along the parking region's edge for 30 m; it is
    nowhere on the lot boundary.  The inward offset leaves the courtyard's
    core as its only hole. *)

Definition courtyard : Curve by_curve :=
  NamedShape 6 30 [(3%nat, 30); (4%nat, 90); (5%nat, 30)] Disjoint [] [].

Definition courtyard_core : named_shape :=
  NamedShape 0 21 [] Disjoint [] [courtyard].

Definition courtyard_lot_region : named_shape :=
  NamedShape 1 80 [(2%nat, 80)] Contained [courtyard_core] [].

Definition courtyard_street : Road by_curve :=
  @Build_Road by_curve (NamedShape 2 80 [(1%nat, 80)] Disjoint [] []).

Definition courtyard_lane : Road by_curve :=
  @Build_Road by_curve (NamedShape 3 30 [(5%nat, 30); (6%nat, 30)] Disjoint [] []).

Definition courtyard_footprint : named_shape :=
  NamedShape 4 40 [(6%nat, 90)] Overlapping [] [].

Definition courtyard_parking : named_shape :=
  NamedShape 5 30 [(3%nat, 30); (6%nat, 30)] Disjoint [] [].

Definition courtyard_lot : Lot by_curve :=
  new_Lot (K := by_curve) courtyard_lot_region "일반주거지역".

Definition courtyard_building : Building by_curve :=
  new_Building (K := by_curve) [courtyard_footprint] 5 "업무시설".

Definition courtyard_site : OepnspaceGenerator by_curve :=
  {| lot := courtyard_lot;
     roads := [courtyard_street; courtyard_lane];
     building := courtyard_building;
     parking_region := courtyard_parking;
     requirement := new_OpenspaceRequirement courtyard_lot courtyard_building |}.

(** ** Comparisons *)

Lemma Rltb_true (a b : R) : a < b -> Rltb a b = true.
Proof. intro H. unfold Rltb. destruct (Rlt_dec a b); [reflexivity | contradiction]. Qed.

Lemma Rltb_false (a b : R) : b <= a -> Rltb a b = false.
Proof. intro H. unfold Rltb. destruct (Rlt_dec a b); [lra | reflexivity]. Qed.

Lemma Rleb_true (a b : R) : a <= b -> Rleb a b = true.
Proof. intro H. unfold Rleb. destruct (Rle_dec a b); [reflexivity | contradiction]. Qed.

Lemma Rleb_false (a b : R) : b < a -> Rleb a b = false.
Proof. intro H. unfold Rleb. destruct (Rle_dec a b); [lra | reflexivity]. Qed.

Lemma Reqb_true (a b : R) : a = b -> Reqb a b = true.
Proof. intro H. unfold Reqb. destruct (Req_dec_T a b); [reflexivity | contradiction]. Qed.

Lemma Reqb_false (a b : R) : a <> b -> Reqb a b = false.
Proof. intro H. unfold Reqb. destruct (Req_dec_T a b); [contradiction | reflexivity]. Qed.

Lemma Rltb_spec (a b : R) : reflect (a < b) (Rltb a b).
Proof. unfold Rltb. destruct (Rlt_dec a b); constructor; assumption. Qed.

Lemma Rleb_spec (a b : R) : reflect (a <= b) (Rleb a b).
Proof. unfold Rleb. destruct (Rle_dec a b); constructor; assumption. Qed.

Lemma Reqb_spec (a b : R) : reflect (a = b) (Reqb a b).
Proof. unfold Reqb. destruct (Req_dec_T a b); constructor; assumption. Qed.

Lemma py_max_Rmax (a b : R) : py_max a b = Rmax a b.
Proof.
  unfold py_max, Rmax.
  destruct (Rltb_spec a b) as [Hlt | Hge]; destruct (Rle_dec a b); lra.
Qed.

Lemma str_in_In (x : string) (xs : list string) : str_in x xs = true <-> In x xs.
Proof.
  unfold str_in. rewrite existsb_exists. split.
  - intros [y [Hy Heq]]. apply String.eqb_eq in Heq. now subst.
  - intro H. exists x. split; [assumption | apply String.eqb_refl].
Qed.

(** ** Requirement evaluator *)

(** C2: the evaluator is a total function of the lot and the building: its
    value is [max(lot.area * 0.1, 90.0)] when the district use is one of the
    four zoning categories, the building use one of the seven use categories
    and the total floor area at least 5000, and 0 as soon as one of the three
    fails. *)
Theorem requirement_evaluator_cases (K : Kernel) (l : Lot K) (b : Building K) :
  List.length district_uses = 4%nat /\ List.length building_uses = 7%nat /\
  (In (lot_district_use l) district_uses ->
   In (building_use b) building_uses ->
   5000 <= building_total_area b ->
   requirement_area (new_OpenspaceRequirement l b) = Rmax (lot_area l * 0.1) 90.0) /\
  (~ In (lot_district_use l) district_uses \/
   ~ In (building_use b) building_uses \/
   building_total_area b < 5000 ->
   requirement_area (new_OpenspaceRequirement l b) = 0).
Proof.
  repeat split.
  - intros Hd Hu Ht. cbn [new_OpenspaceRequirement requirement_area].
    unfold _get_target_information.
    apply str_in_In in Hd. apply str_in_In in Hu. rewrite Hd, Hu. cbn [negb].
    rewrite Rltb_false by assumption.
    unfold AREA_RATIO, MIN_AREA. apply py_max_Rmax.
  - intros H. cbn [new_OpenspaceRequirement requirement_area].
    unfold _get_target_information.
    destruct (str_in (lot_district_use l) district_uses) eqn:Ed; cbn [negb];
      [| reflexivity].
    destruct (str_in (building_use b) building_uses) eqn:Eu; cbn [negb];
      [| reflexivity].
    destruct (Rltb_spec (building_total_area b) 5000) as [Hlt | Hge];
      [reflexivity |].
    apply str_in_In in Ed. apply str_in_In in Eu.
    destruct H as [H | [H | H]]; [contradiction | contradiction | lra].
Qed.

(** C9: the computed requirement area is either 0 or at least 90; nothing
    strictly between 0 and 90, and nothing negative, is reachable. *)
Theorem requirement_area_zero_or_min (K : Kernel) (l : Lot K) (b : Building K) :
  let a := requirement_area (new_OpenspaceRequirement l b) in
  (a = 0 \/ MIN_AREA <= a) /\ 0 <= a /\ ~ (0 < a < 90).
Proof.
  cbn zeta. cbn [new_OpenspaceRequirement requirement_area].
  unfold _get_target_information.
  assert (Hmax : MIN_AREA <= py_max (lot_area l * AREA_RATIO) MIN_AREA).
  { rewrite py_max_Rmax. apply Rmax_r. }
  unfold MIN_AREA in *.
  destruct (negb _); [lra |].
  destruct (negb _); [lra |].
  destruct (Rltb _ _); lra.
Qed.

Lemma site_total_area : building_total_area site_building = 8000.
Proof. cbn. unfold py_sum. cbn. lra. Qed.

Lemma site_lot_area : lot_area site_lot = 2500.
Proof. cbn. lra. Qed.

(** The site: a lot of 2500 m2 and 8000 m2 of offices require 250 m2. *)
Lemma requirement_evaluator_cases_site :
  requirement_area (new_OpenspaceRequirement site_lot site_building) = 250.
Proof.
  destruct (requirement_evaluator_cases tabulated site_lot site_building)
    as [_ [_ [Heligible _]]].
  rewrite Heligible.
  - rewrite site_lot_area. unfold Rmax. destruct (Rle_dec _ _); lra.
  - cbn. tauto.
  - cbn. tauto.
  - rewrite site_total_area. lra.
Defined.

(** ** Ranker *)

Section Sorting.

Variable A : Type.
Variable key : A -> R.

Lemma insert_desc_perm (x : A) (l : list A) :
  Permutation (x :: l) (insert_desc key x l).
Proof.
  induction l as [| y l IH]; cbn [insert_desc].
  - apply Permutation_refl.
  - destruct (Rltb (key x) (key y)).
    + eapply perm_trans; [apply perm_swap | apply perm_skip, IH].
    + apply Permutation_refl.
Qed.

Lemma sorted_reverse_perm (l : list A) : Permutation l (sorted_reverse key l).
Proof.
  induction l as [| x l IH]; cbn [sorted_reverse].
  - apply perm_nil.
  - eapply perm_trans; [apply perm_skip, IH | apply insert_desc_perm].
Qed.

Lemma insert_desc_sorted (x : A) (l : list A) :
  StronglySorted (key_ge key) l -> StronglySorted (key_ge key) (insert_desc key x l).
Proof.
  induction 1 as [| y l Hs IH Hall]; cbn [insert_desc].
  - constructor; [constructor | constructor].
  - destruct (Rltb_spec (key x) (key y)) as [Hlt | Hge].
    + constructor; [exact IH |].
      eapply Permutation_Forall; [apply insert_desc_perm |].
      constructor; [unfold key_ge; lra | exact Hall].
    + constructor; [constructor; assumption |].
      constructor; [unfold key_ge; lra |].
      eapply Forall_impl; [| exact Hall].
      unfold key_ge. intros z Hz. lra.
Qed.

Lemma sorted_reverse_sorted (l : list A) :
  StronglySorted (key_ge key) (sorted_reverse key l).
Proof.
  induction l as [| x l IH]; cbn [sorted_reverse].
  - constructor.
  - apply insert_desc_sorted, IH.
Qed.

Lemma insert_desc_with_key (v : R) (x : A) (l : list A) :
  with_key key v (insert_desc key x l) = with_key key v (x :: l).
Proof.
  unfold with_key.
  induction l as [| y l IH]; cbn [insert_desc]; [reflexivity |].
  destruct (Rltb_spec (key x) (key y)) as [Hlt | Hge]; [| reflexivity].
  cbn [filter] in *. rewrite IH.
  destruct (Reqb_spec (key x) v) as [Hx | Hx];
    destruct (Reqb_spec (key y) v) as [Hy | Hy]; try reflexivity.
  lra.
Qed.

Lemma sorted_reverse_with_key (v : R) (l : list A) :
  with_key key v (sorted_reverse key l) = with_key key v l.
Proof.
  induction l as [| x l IH]; cbn [sorted_reverse]; [reflexivity |].
  rewrite insert_desc_with_key. unfold with_key in *. cbn [filter].
  now rewrite IH.
Qed.

End Sorting.

(** C5: the ranker returns a permutation of its input, in descending order of
    area, and candidates of equal area keep the order the input has them
    in. *)
Theorem sort_candidate_regions_stable_desc (K : Kernel) (candidates : list (Curve K)) :
  Permutation candidates (sort_candidate_regions candidates) /\
  StronglySorted (fun a b => Area b <= Area a) (sort_candidate_regions candidates) /\
  (forall v : R,
     filter (fun c => Reqb (Area c) v) (sort_candidate_regions candidates) =
     filter (fun c => Reqb (Area c) v) candidates).
Proof.
  unfold sort_candidate_regions. split; [| split].
  - apply sorted_reverse_perm.
  - apply (sorted_reverse_sorted _ Area).
  - intro v. apply (sorted_reverse_with_key _ Area).
Qed.

(** ** Sums of areas *)

Lemma fold_left_Rplus_acc (xs : list R) (a : R) :
  fold_left Rplus xs a = a + fold_left Rplus xs 0.
Proof.
  revert a. induction xs as [| x xs IH]; intro a; cbn [fold_left].
  - lra.
  - rewrite (IH (a + x)), (IH (0 + x)). lra.
Qed.

Lemma py_sum_cons (x : R) (xs : list R) : py_sum (x :: xs) = x + py_sum xs.
Proof.
  unfold py_sum. cbn [fold_left]. rewrite fold_left_Rplus_acc. lra.
Qed.

Lemma total_area_nil (K : Kernel) : total_area (@nil (Curve K)) = 0.
Proof. reflexivity. Qed.

Lemma total_area_cons (K : Kernel) (c : Curve K) (l : list (Curve K)) :
  total_area (c :: l) = Area c + total_area l.
Proof. unfold total_area. cbn [map]. apply py_sum_cons. Qed.

Lemma total_area_app (K : Kernel) (l1 l2 : list (Curve K)) :
  total_area (l1 ++ l2) = total_area l1 + total_area l2.
Proof.
  induction l1 as [| c l1 IH]; cbn [app].
  - rewrite total_area_nil. lra.
  - rewrite !total_area_cons, IH. lra.
Qed.

Lemma total_area_nonneg (K : Kernel) (laws : KernelLaws K) (l : list (Curve K)) :
  0 <= total_area l.
Proof.
  induction l as [| c l IH].
  - rewrite total_area_nil. lra.
  - rewrite total_area_cons. pose proof (Area_nonneg K laws c). lra.
Qed.

(** ** Fitter *)

Section Fitter.

Context {K : Kernel}.
Variable laws : KernelLaws K.
Variable self : OepnspaceGenerator K.

Lemma scaled_area (c : Curve K) (p : Point3d K) (target : R) :
  0 <= target -> target < Area c ->
  Area (Scale c p (sqrt (target / Area c))) = target.
Proof.
  intros H0 Hlt.
  assert (Hpos : 0 < Area c) by lra.
  assert (Hratio : 0 <= target / Area c).
  { apply Rmult_le_pos; [assumption |]. left. now apply Rinv_0_lt_compat. }
  rewrite (Scale_Area K laws) by apply sqrt_pos.
  rewrite sqrt_sqrt by assumption.
  field. lra.
Qed.

(** Past its early return, [reduce_region] depends on the overlap with the
    lot boundary only. *)
Lemma reduce_region_shrink (c : Curve K) (target : R) :
  0 <= target -> target < Area c ->
  reduce_region self c target =
  match get_overlap_crv c (lot_region (lot self)) with
  | [] => Raise IndexError
  | crv :: _ => Ok (Scale c (PointAt crv 0.5) (sqrt (target / Area c)))
  end.
Proof.
  intros H0 Hlt. unfold reduce_region.
  rewrite Rleb_false by assumption.
  unfold py_div. rewrite Reqb_false by lra. cbn [bind].
  destruct (get_overlap_crv c (lot_region (lot self))) as [| crv crvs];
    [reflexivity |].
  unfold pow_half. rewrite Rltb_false; [reflexivity |].
  apply Rmult_le_pos; [assumption |]. left. apply Rinv_0_lt_compat. lra.
Qed.

Lemma adjust_loop_cons (c : Curve K) (rest adj : list (Curve K)) (total : R) :
  adjust_loop self (c :: rest) adj total =
  (shrunk <-
     (if Rltb (requirement_area (requirement self)) (total + Area c)
      then c' <- reduce_region self c (requirement_area (requirement self) - total) ;;
           Ok (c', Area c')
      else Ok (c, Area c)) ;;
   if Rleb (requirement_area (requirement self)) (total + snd shrunk)
   then Ok (adj ++ [fst shrunk])
   else adjust_loop self rest (adj ++ [fst shrunk]) (total + snd shrunk)).
Proof. reflexivity. Qed.

(** The loop never returns less than it was given plus one region per
    iteration it ran: with a candidate to look at, something is appended. *)
Lemma adjust_loop_appends (c : Curve K) (rest adj accepted : list (Curve K)) (total : R) :
  adjust_loop self (c :: rest) adj total = Ok accepted ->
  exists x taken, accepted = adj ++ x :: taken.
Proof.
  revert c adj total. induction rest as [| d rest IH]; intros c adj total.
  - rewrite adjust_loop_cons.
    destruct (if Rltb _ _ then _ else _) as [[x a] | e]; cbn [bind fst snd];
      [| discriminate].
    destruct (Rleb _ _); cbn [adjust_loop]; intro H; injection H as <-;
      exists x, []; reflexivity.
  - rewrite adjust_loop_cons.
    destruct (if Rltb _ _ then _ else _) as [[x a] | e]; cbn [bind fst snd];
      [| discriminate].
    destruct (Rleb _ _).
    + intro H; injection H as <-. exists x, []. reflexivity.
    + intro H. apply IH in H. destruct H as [y [taken ->]].
      exists x, (y :: taken). now rewrite <- app_assoc.
Qed.

(** The loop invariant [total <= requirement], and what a normal return of
    the loop then says about the regions it appended. *)
Lemma adjust_loop_spec (cands : list (Curve K)) :
  forall (adj : list (Curve K)) (total : R) (accepted : list (Curve K)),
  total <= requirement_area (requirement self) ->
  adjust_loop self cands adj total = Ok accepted ->
  exists taken,
    accepted = adj ++ taken /\
    total + total_area taken <= requirement_area (requirement self) /\
    (total + total_area taken = requirement_area (requirement self) <->
     requirement_area (requirement self) <= total + total_area cands) /\
    (taken = [] \/
     exists init last, taken = init ++ [last] /\
                       init = firstn (List.length init) cands).
Proof.
  set (Rq := requirement_area (requirement self)).
  induction cands as [| c rest IH]; intros adj total accepted Hle Hrun.
  - cbn [adjust_loop] in Hrun. injection Hrun as <-.
    exists []. rewrite app_nil_r, total_area_nil.
    repeat split; try lra. now left.
  - rewrite adjust_loop_cons in Hrun. fold Rq in Hrun.
    pose proof (total_area_nonneg K laws rest) as Hrest.
    rewrite total_area_cons.
    destruct (Rltb_spec Rq (total + Area c)) as [Hover | Hfit].
    + rewrite reduce_region_shrink in Hrun by lra.
      destruct (get_overlap_crv c (lot_region (lot self))) as [| crv crvs];
        [discriminate |].
      cbn [bind fst snd] in Hrun.
      rewrite scaled_area in Hrun by lra.
      rewrite Rleb_true in Hrun by lra. injection Hrun as <-.
      eexists [_]. split; [reflexivity |].
      rewrite total_area_cons, total_area_nil, scaled_area by lra.
      repeat split; try lra.
      right. exists [], (Scale c (PointAt crv 0.5) (sqrt ((Rq - total) / Area c))).
      split; reflexivity.
    + cbn [bind fst snd] in Hrun.
      destruct (Rleb_spec Rq (total + Area c)) as [Hstop | Hgo].
      * injection Hrun as <-. exists [c]. split; [reflexivity |].
        rewrite total_area_cons, total_area_nil.
        repeat split; try lra.
        right. exists [], c. split; reflexivity.
      * apply IH in Hrun; [| lra].
        destruct Hrun as [taken [-> [Hsum [Hiff Hshape]]]].
        exists (c :: taken). rewrite <- app_assoc. split; [reflexivity |].
        rewrite total_area_cons.
        split; [lra |]. split.
        { split; intro H.
          - assert (Rq <= total + Area c + total_area rest) by (apply Hiff; lra). lra.
          - assert (total + Area c + total_area taken = Rq) by (apply Hiff; lra). lra. }
        right. destruct Hshape as [-> | [init [last [-> Hinit]]]].
        { exists [], c. split; reflexivity. }
        exists (c :: init), last. split; [reflexivity |].
        cbn [List.length firstn]. now rewrite <- Hinit.
Qed.

(** The loop returns as soon as every candidate it may have to shrink has
    some overlap with the lot boundary. *)
Lemma adjust_loop_returns (cands : list (Curve K)) :
  forall (adj : list (Curve K)) (total : R),
  total <= requirement_area (requirement self) ->
  (forall c, In c cands -> get_overlap_crv c (lot_region (lot self)) <> []) ->
  exists accepted, adjust_loop self cands adj total = Ok accepted.
Proof.
  set (Rq := requirement_area (requirement self)).
  induction cands as [| c rest IH]; intros adj total Hle Hov.
  - exists adj. reflexivity.
  - rewrite adjust_loop_cons. fold Rq.
    destruct (Rltb_spec Rq (total + Area c)) as [Hover | Hfit].
    + rewrite reduce_region_shrink by lra.
      pose proof (Hov c (or_introl eq_refl)) as Hc.
      destruct (get_overlap_crv c (lot_region (lot self))) as [| crv crvs];
        [contradiction |].
      cbn [bind fst snd]. rewrite scaled_area by lra.
      rewrite Rleb_true by lra. eexists. reflexivity.
    + cbn [bind fst snd].
      destruct (Rleb_spec Rq (total + Area c)) as [Hstop | Hgo].
      * eexists. reflexivity.
      * apply IH; [lra |]. intros d Hd. apply Hov. now right.
Qed.

End Fitter.

(** ** The tabulated kernel is a kernel *)

Lemma tabulated_laws : KernelLaws tabulated.
Proof.
  split.
  - intro c. cbn. apply Rle_0_sqr.
  - intros c p f _. cbn. ring.
Qed.

Lemma pieces_collide (lens : list R) :
  filter (fun seg : shape => shape_collides seg) (map piece lens) = map piece lens.
Proof.
  induction lens as [| len lens IH]; [reflexivity |].
  cbn [map filter piece plain shape_collides sh_pieces]. now rewrite IH.
Qed.

Lemma tabulated_overlap (a b : shape) :
  get_overlap_crv (K := tabulated) a b = map piece (sh_pieces a).
Proof.
  unfold get_overlap_crv. cbn. rewrite pieces_collide.
  unfold shape_collides. destruct (sh_pieces a); reflexivity.
Qed.

(** What the fitter would guarantee over a kernel that measures exactly
    ([KernelLaws]: the area after a scaling is the square of the factor times
    the area before, to the last digit): the regions returned never sum to
    more than the requirement, they sum to it if and only if the ranked
    candidates sum to at least the requirement, and then all but the last
    are the leading ranked candidates, unmodified.  A kernel computing in
    binary64 does not measure like that in general. *)
Lemma exact_kernel_fits (K : Kernel) (laws : KernelLaws K)
    (self : OepnspaceGenerator K) (ranked : list (Curve K)) :
  0 <= requirement_area (requirement self) ->
  ((forall c, In c ranked -> get_overlap_crv c (lot_region (lot self)) <> []) ->
   exists accepted, adjust_candidate_regions self ranked = Ok accepted) /\
  (forall accepted,
     adjust_candidate_regions self ranked = Ok accepted ->
     total_area accepted <= requirement_area (requirement self) /\
     (total_area accepted = requirement_area (requirement self) <->
      requirement_area (requirement self) <= total_area ranked) /\
     (requirement_area (requirement self) <= total_area ranked ->
      Rabs (total_area accepted - requirement_area (requirement self)) <= AREA_TOL) /\
     (total_area accepted = requirement_area (requirement self) ->
      accepted = [] \/
      exists init last,
        accepted = init ++ [last] /\
        init = firstn (List.length init) ranked /\
        Area last = requirement_area (requirement self) - total_area init)).
Proof.
  intro Hreq. unfold adjust_candidate_regions. split.
  - intro Hov. apply adjust_loop_returns; [exact laws | lra | exact Hov].
  - intros accepted Hrun.
    apply (adjust_loop_spec laws) in Hrun; [| lra].
    destruct Hrun as [taken [-> [Hsum [Hiff Hshape]]]]. cbn [app].
    assert (Hexact : total_area taken = requirement_area (requirement self) <->
                     requirement_area (requirement self) <= total_area ranked).
    { split; intro H.
      * assert (requirement_area (requirement self) <= 0.0 + total_area ranked)
          by (apply Hiff; lra). lra.
      * assert (0.0 + total_area taken = requirement_area (requirement self))
          by (apply Hiff; lra). lra. }
    split; [lra |]. split; [exact Hexact |]. split.
    + intro Hge. apply Hexact in Hge. rewrite Hge.
      replace (requirement_area (requirement self) - requirement_area (requirement self))
        with 0 by lra.
      rewrite Rabs_R0. unfold AREA_TOL. lra.
    + intro Heq. destruct Hshape as [-> | [init [last [-> Hinit]]]];
        [now left | right].
      exists init, last. split; [reflexivity |]. split; [exact Hinit |].
      rewrite total_area_app, total_area_cons, total_area_nil in Heq. lra.
Qed.

Lemma site_candidates_overlap (area : R) (c : shape) :
  In c [cand_a; cand_b] ->
  get_overlap_crv (K := tabulated) c (lot_region (lot (site_requiring area))) <> [].
Proof.
  intros [<- | [<- | []]]; rewrite tabulated_overlap; discriminate.
Qed.

Lemma site_candidates_total : total_area (K := tabulated) [cand_a; cand_b] = 325.
Proof.
  rewrite !total_area_cons, total_area_nil. cbn. lra.
Qed.

Lemma sort_candidate_regions_nil_inv (K : Kernel) (l : list (Curve K)) :
  sort_candidate_regions l = [] -> l = [].
Proof.
  intro H. apply Permutation_nil. rewrite <- H.
  apply Permutation_sym, sorted_reverse_perm.
Qed.

Lemma adjust_candidate_regions_nonempty (K : Kernel) (self : OepnspaceGenerator K)
    (c : Curve K) (rest : list (Curve K)) :
  adjust_candidate_regions self (c :: rest) <> Ok [].
Proof.
  unfold adjust_candidate_regions. intro H.
  apply adjust_loop_appends in H. destruct H as [x [taken H]]. discriminate.
Qed.

(** C3: with a requirement of 0 the fitter still looks at its first
    candidate and appends it before it tests whether the target is reached:
    given any candidate at all it never returns the empty list.  It returns
    one region, of area 0, when that candidate has some overlap with the lot
    boundary; and the pipeline does not return the empty list when a
    candidate passes the filter. *)
Theorem zero_requirement_keeps_a_region (K : Kernel) (laws : KernelLaws K)
    (self : OepnspaceGenerator K) :
  requirement_area (requirement self) = 0 ->
  (forall c rest,
     adjust_candidate_regions self (c :: rest) <> Ok [] /\
     (get_overlap_crv c (lot_region (lot self)) <> [] ->
      exists x, adjust_candidate_regions self (c :: rest) = Ok [x] /\ Area x = 0)) /\
  (forall candidates,
     get_candidate_regions self = Ok candidates ->
     filter_candidate_regions self candidates <> [] ->
     get_openspace self <> Ok []).
Proof.
  intro Hzero. split.
  - intros c rest. split; [apply adjust_candidate_regions_nonempty |].
    intro Hov. unfold adjust_candidate_regions.
    rewrite adjust_loop_cons, Hzero.
    pose proof (Area_nonneg K laws c) as Hc.
    destruct (Rltb_spec 0 (0.0 + Area c)) as [Hover | Hfit].
    + rewrite reduce_region_shrink by lra.
      destruct (get_overlap_crv c (lot_region (lot self))) as [| crv crvs];
        [contradiction |].
      cbn [bind fst snd]. rewrite (scaled_area laws) by lra.
      rewrite Rleb_true by lra. eexists. split; [reflexivity |].
      rewrite (scaled_area laws) by lra. lra.
    + cbn [bind fst snd]. rewrite Rleb_true by lra.
      exists c. split; [reflexivity | lra].
  - intros candidates Hgen Hfilter. unfold get_openspace.
    rewrite Hgen. cbn [bind].
    destruct (sort_candidate_regions (filter_candidate_regions self candidates))
      as [| c rest] eqn:Hsort.
    + apply sort_candidate_regions_nil_inv in Hsort. contradiction.
    + apply adjust_candidate_regions_nonempty.
Qed.

(** On the site with nothing required, the fitter returns one region of no
    area. *)
Lemma zero_requirement_keeps_a_region_site :
  exists x,
    adjust_candidate_regions (site_requiring 0) [cand_a; cand_b] = Ok [x] /\
    Area (k := tabulated) x = 0.
Proof.
  destruct (zero_requirement_keeps_a_region tabulated tabulated_laws
              (site_requiring 0) eq_refl) as [Hfit _].
  destruct (Hfit cand_a [cand_b]) as [_ Hone].
  apply Hone. apply site_candidates_overlap. now left.
Defined.

Lemma reduce_region_empty_overlap (K : Kernel) (self : OepnspaceGenerator K)
    (c : Curve K) :
  0 <= requirement_area (requirement self) ->
  requirement_area (requirement self) < Area c ->
  get_overlap_crv c (lot_region (lot self)) = [] ->
  reduce_region self c (requirement_area (requirement self)) = Raise IndexError /\
  (forall rest, adjust_candidate_regions self (c :: rest) = Raise IndexError).
Proof.
  intros Hreq Hlt Hov. split.
  - rewrite reduce_region_shrink by assumption. now rewrite Hov.
  - intro rest. unfold adjust_candidate_regions. rewrite adjust_loop_cons.
    rewrite Rltb_true by lra.
    replace (requirement_area (requirement self) - 0.0)
      with (requirement_area (requirement self)) by lra.
    rewrite reduce_region_shrink by assumption. now rewrite Hov.
Qed.

(** ** Candidate filter *)

Lemma is_road_adjacent_loop_exists (K : Kernel) (self : OepnspaceGenerator K)
    (candidate : Curve K) (rs : list (Road K)) :
  is_road_adjacent_loop self rs candidate = true <->
  exists r, In r rs /\
            get_overlap_length (lot_region (lot self)) (road_curve r) * ROAD_ADJUST_RATIO
            < get_overlap_length candidate (road_curve r).
Proof.
  induction rs as [| road rs IH]; cbn [is_road_adjacent_loop].
  - split; [discriminate | intros [r [[] _]]].
  - destruct (Rltb_spec
                (get_overlap_length (lot_region (lot self)) (road_curve road)
                 * ROAD_ADJUST_RATIO)
                (get_overlap_length candidate (road_curve road))) as [Hlt | Hge].
    + split; [| reflexivity]. intros _. exists road. split; [now left | exact Hlt].
    + rewrite IH. split.
      * intros [r [Hin Hr]]. exists r. split; [now right | exact Hr].
      * intros [r [[<- | Hin] Hr]]; [contradiction | exists r; now split].
Qed.

(** C4: a polygon is in the filter's output exactly when it is an input
    candidate of area at least 90 with a road [r] such that
    [overlap_length(candidate, r) > overlap_length(lot.region, r) * 0.25]; a
    candidate failing either test is therefore absent. *)
Theorem filter_candidate_regions_keeps (K : Kernel) (self : OepnspaceGenerator K)
    (candidates : list (Curve K)) (c : Curve K) :
  In c (filter_candidate_regions self candidates) <->
  In c candidates /\
  90.0 <= Area c /\
  exists r, In r (roads self) /\
            get_overlap_length (lot_region (lot self)) (road_curve r) * 0.25
            < get_overlap_length c (road_curve r).
Proof.
  unfold filter_candidate_regions. rewrite !filter_In.
  unfold is_road_adjacent. rewrite is_road_adjacent_loop_exists.
  unfold ROAD_ADJUST_RATIO, MIN_AREA.
  destruct (Rleb_spec 90.0 (Area c)) as [Hle | Hlt].
  - tauto.
  - split; [intros [_ H]; discriminate | tauto].
Qed.

(** C8: without roads no candidate is road adjacent, the filter returns the
    empty list whatever the candidates, and so does the pipeline: the filter,
    the ranker and the fitter raise nothing, and the only exception left is
    one the generator raised before them. *)
Theorem no_roads_no_openspace (K : Kernel) (self : OepnspaceGenerator K) :
  roads self = [] ->
  (forall candidate, is_road_adjacent self candidate = false) /\
  (forall candidates, filter_candidate_regions self candidates = []) /\
  (forall candidates,
     get_candidate_regions self = Ok candidates -> get_openspace self = Ok []) /\
  (forall e, get_openspace self = Raise e -> get_candidate_regions self = Raise e).
Proof.
  intro Hroads.
  assert (Hadj : forall candidate, is_road_adjacent self candidate = false).
  { intro candidate. unfold is_road_adjacent. now rewrite Hroads. }
  assert (Hfilter : forall candidates, filter_candidate_regions self candidates = []).
  { intro candidates. unfold filter_candidate_regions.
    induction candidates as [| c candidates IH]; [reflexivity |].
    cbn [filter]. rewrite Hadj. exact IH. }
  split; [exact Hadj |]. split; [exact Hfilter |]. split.
  - intros candidates Hgen. unfold get_openspace.
    rewrite Hgen. cbn [bind]. now rewrite Hfilter.
  - intro e. unfold get_openspace.
    destruct (get_candidate_regions self) as [candidates | e']; cbn [bind].
    + rewrite Hfilter. discriminate.
    + intro H. exact H.
Qed.

Lemma site_without_roads_candidates :
  get_candidate_regions site_without_roads = Ok [cand_a; cand_b].
Proof.
  unfold get_candidate_regions, offset_regions_inward.
  rewrite Reqb_false by (unfold MIN_DEPTH; lra).
  cbn. unfold offset_region_outward.
  rewrite Reqb_false by (unfold MIN_DEPTH; lra).
  reflexivity.
Qed.

(** The site without roads: two candidates are generated and none is
    returned. *)
Lemma no_roads_no_openspace_site : get_openspace site_without_roads = Ok [].
Proof.
  destruct (no_roads_no_openspace tabulated site_without_roads eq_refl)
    as [_ [_ [Hrun _]]].
  exact (Hrun [cand_a; cand_b] site_without_roads_candidates).
Defined.

(** ** Candidate generator *)

Lemma has_region_intersection_Disjoint (K : Kernel) (region other : Curve K) (tol : R) :
  has_region_intersection region other tol = false <->
  PlanarClosedCurveRelationship region other tol = Disjoint.
Proof.
  unfold has_region_intersection.
  destruct (PlanarClosedCurveRelationship region other tol); cbn;
    split; intro H; try reflexivity; discriminate.
Qed.

Lemma hits_building_false (K : Kernel) (self : OepnspaceGenerator K) (region : Curve K) :
  hits_building self region = false <->
  forall b, In b (building_regions (building self)) ->
            PlanarClosedCurveRelationship region b TOL = Disjoint.
Proof.
  unfold hits_building.
  induction (building_regions (building self)) as [| b bs IH]; cbn [existsb].
  - split; [intros _ b [] | reflexivity].
  - rewrite orb_false_iff, IH, has_region_intersection_Disjoint. split.
    + intros [Hb Hbs] b' [<- | Hin]; [exact Hb | now apply Hbs].
    + intro H. split; [apply H; now left | intros b' Hin; apply H; now right].
Qed.

Lemma filter_inward_regions_In (K : Kernel) (self : OepnspaceGenerator K)
    (inward : list (Curve K)) (region : Curve K) :
  In region (filter_inward_regions self inward) <->
  In region inward /\ hits_building self region = false.
Proof.
  induction inward as [| r inward IH]; cbn [filter_inward_regions].
  - split; [intros [] | intros [[] _]].
  - destruct (hits_building self r) eqn:Hr.
    + rewrite IH. split.
      * intros [Hin Hfree]. split; [now right | exact Hfree].
      * intros [[<- | Hin] Hfree]; [congruence | now split].
    + cbn [In]. rewrite IH. split.
      * intros [<- | [Hin Hfree]]; [split; [now left | exact Hr] |].
        split; [now right | exact Hfree].
      * intros [[<- | Hin] Hfree]; [now left | right; now split].
Qed.

(** C6, as the code has it: an inward region survives step 3 exactly when
    the kernel classifies it as [Disjoint] from every building region; it is
    discarded as soon as its relationship with one building region is
    anything else, contact at isolated points included. *)
Theorem filter_inward_regions_keeps_disjoint (K : Kernel) (self : OepnspaceGenerator K)
    (inward : list (Curve K)) (region : Curve K) :
  (In region (filter_inward_regions self inward) <->
   In region inward /\
   forall b, In b (building_regions (building self)) ->
             PlanarClosedCurveRelationship region b TOL = Disjoint) /\
  (forall b, In b (building_regions (building self)) ->
             PlanarClosedCurveRelationship region b TOL <> Disjoint ->
             ~ In region (filter_inward_regions self inward)).
Proof.
  split.
  - rewrite filter_inward_regions_In, hits_building_false. reflexivity.
  - intros b Hb Hrel Hin.
    apply filter_inward_regions_In in Hin. destruct Hin as [_ Hfree].
    apply Hrel. now apply (proj1 (hits_building_false K self region) Hfree).
Qed.

(** C6, as stated, fails: on the site, an inward region that only touches
    the building footprint (no shared boundary, no shared area) is discarded
    all the same. *)
Lemma touching_region_is_discarded :
  PlanarClosedCurveRelationship (k := tabulated) pocket_touching site_footprint TOL
  = Touching /\
  filter_inward_regions site [pocket_touching] = [] /\
  ~ (forall (K : Kernel) (self : OepnspaceGenerator K)
            (inward : list (Curve K)) (region : Curve K),
       In region inward ->
       (~ In region (filter_inward_regions self inward) <->
        exists b, In b (building_regions (building self)) /\
                  intersects_beyond_touching
                    (PlanarClosedCurveRelationship region b TOL) = true)).
Proof.
  split; [reflexivity |]. split; [reflexivity |].
  intro H.
  specialize (H tabulated site [pocket_touching] pocket_touching (or_introl eq_refl)).
  destruct H as [H _].
  destruct H as [b [_ Hb]].
  - cbn. intros [].
  - cbn in Hb. discriminate.
Qed.

Lemma offset_region_outward_first_contour (K : Kernel) (region : Curve K) (dist miter : R) :
  dist <> 0 ->
  offset_region_outward region dist miter =
  match fst (PolylineOffset [region] dist miter) with
  | [] => Raise IndexError
  | c :: _ => Ok c
  end.
Proof.
  intro Hd. unfold offset_region_outward. rewrite Reqb_false by assumption.
  reflexivity.
Qed.

Lemma mapM_Ok_Forall2 (A B : Type) (f : A -> result B) (xs : list A) (ys : list B) :
  mapM f xs = Ok ys <-> Forall2 (fun x y => f x = Ok y) xs ys.
Proof.
  revert ys. induction xs as [| x xs IH]; intro ys; cbn [mapM].
  - split.
    + intro H. injection H as <-. constructor.
    + intro H. inversion H. reflexivity.
  - destruct (f x) as [y | e] eqn:Hx; cbn [bind].
    + destruct (mapM f xs) as [ys' | e]; cbn [bind].
      * split.
        -- intro H. injection H as <-. constructor; [exact Hx | now apply IH].
        -- intro H. inversion H as [| x0 y0 xs0 ys0 Hy Hrest]; subst.
           apply IH in Hrest. congruence.
      * split; [discriminate |].
        intro H. inversion H as [| x0 y0 xs0 ys0 Hy Hrest]; subst.
        apply IH in Hrest. discriminate.
    + split; [discriminate |].
      intro H. inversion H as [| x0 y0 xs0 ys0 Hy Hrest]; subst. congruence.
Qed.

Lemma mapM_Raise (A B : Type) (f : A -> result B) (xs : list A) (e : PyError) :
  (forall x e', In x xs -> f x = Raise e' -> e' = e) ->
  (exists x, In x xs /\ f x = Raise e) ->
  mapM f xs = Raise e.
Proof.
  induction xs as [| x xs IH]; intros Honly [x0 [Hin Hx0]]; [destruct Hin |].
  cbn [mapM].
  destruct (f x) as [y | e'] eqn:Hx; cbn [bind].
  - rewrite IH; [reflexivity | |].
    + intros x1 e1 Hin1. apply Honly. now right.
    + destruct Hin as [<- | Hin]; [congruence |]. exists x0. now split.
  - f_equal. apply (Honly x e'); [now left | exact Hx].
Qed.

Lemma offset_region_outward_Ok (K : Kernel) (region c : Curve K) (dist miter : R) :
  dist <> 0 ->
  offset_region_outward region dist miter = Ok c <->
  exists rest, fst (PolylineOffset [region] dist miter) = c :: rest.
Proof.
  intro Hd. rewrite offset_region_outward_first_contour by assumption.
  destruct (fst (PolylineOffset [region] dist miter)) as [| c' rest].
  - split; [discriminate | intros [rest H]; discriminate].
  - split.
    + intro H. injection H as <-. now exists rest.
    + intros [rest' H]. injection H as <- _. reflexivity.
Qed.

Lemma MIN_DEPTH_half_nonzero : MIN_DEPTH / 2 <> 0.
Proof. unfold MIN_DEPTH. lra. Qed.

(** C7, as the code has it: when the outward-offset step returns, it
    returns one polygon per surviving region, in order, each the first
    contour of the offset of its region; a region whose offset has no contour
    is not dropped: the step raises [IndexError], and the generator and the
    pipeline with it. *)
Theorem offset_regions_outward_all_or_raise (K : Kernel) (self : OepnspaceGenerator K) :
  (forall (regions out : list (Curve K)) (dist miter : R),
     dist <> 0 ->
     (offset_regions_outward regions dist miter = Ok out <->
      Forall2 (fun region c =>
                 exists rest, fst (PolylineOffset [region] dist miter) = c :: rest)
              regions out)) /\
  (forall (regions : list (Curve K)) (dist miter : R),
     dist <> 0 ->
     (exists region, In region regions /\
                     fst (PolylineOffset [region] dist miter) = []) ->
     offset_regions_outward regions dist miter = Raise IndexError) /\
  (forall inward : list (Curve K),
     offset_regions_inward
       ([lot_region (lot self); parking_region self] ++ building_regions (building self))
       (MIN_DEPTH / 2) BIGNUM = Ok inward ->
     (exists region, In region (filter_inward_regions self inward) /\
                     fst (PolylineOffset [region] (MIN_DEPTH / 2) BIGNUM) = []) ->
     get_candidate_regions self = Raise IndexError /\
     get_openspace self = Raise IndexError).
Proof.
  assert (Hraise : forall (regions : list (Curve K)) (dist miter : R),
             dist <> 0 ->
             (exists region, In region regions /\
                             fst (PolylineOffset [region] dist miter) = []) ->
             offset_regions_outward regions dist miter = Raise IndexError).
  { intros regions dist miter Hd [region [Hin Hempty]].
    unfold offset_regions_outward. apply mapM_Raise.
    - intros x e' _. rewrite offset_region_outward_first_contour by assumption.
      destruct (fst (PolylineOffset [x] dist miter)); congruence.
    - exists region. split; [exact Hin |].
      rewrite offset_region_outward_first_contour by assumption.
      now rewrite Hempty. }
  split; [| split].
  - intros regions out dist miter Hd.
    unfold offset_regions_outward. rewrite mapM_Ok_Forall2.
    split; apply Forall2_impl; intros region c H;
      now apply (offset_region_outward_Ok K region c dist miter Hd).
  - exact Hraise.
  - intros inward Hin Hbad.
    assert (Hgen : get_candidate_regions self = Raise IndexError).
    { unfold get_candidate_regions. rewrite Hin. cbn [bind].
      apply Hraise; [apply MIN_DEPTH_half_nonzero | exact Hbad]. }
    split; [exact Hgen |].
    unfold get_openspace. now rewrite Hgen.
Qed.

(** Two pockets of the site, offset outward by 4.5 m: one polygon each. *)
Lemma offset_regions_outward_site :
  offset_regions_outward (K := tabulated) [pocket cand_a; pocket cand_b]
    (MIN_DEPTH / 2) BIGNUM
  = Ok [cand_a; cand_b].
Proof.
  apply (proj1 (offset_regions_outward_all_or_raise tabulated site)
           [pocket cand_a; pocket cand_b] [cand_a; cand_b] (MIN_DEPTH / 2) BIGNUM
           MIN_DEPTH_half_nonzero).
  repeat constructor; eexists; reflexivity.
Defined.

(** C7, as stated, fails: with a pocket whose outward offset has no contour
    between two sound ones, the step does not return the two sound
    candidates; it raises, and so does the pipeline. *)
Lemma degenerate_offset_aborts :
  offset_regions_outward (K := tabulated)
    [pocket cand_a; pocket_degenerate; pocket cand_b] (MIN_DEPTH / 2) BIGNUM
  = Raise IndexError /\
  get_openspace (site_with_pockets [pocket cand_a; pocket_degenerate; pocket cand_b])
  = Raise IndexError.
Proof.
  assert (Hout : offset_regions_outward (K := tabulated)
                   [pocket cand_a; pocket_degenerate; pocket cand_b]
                   (MIN_DEPTH / 2) BIGNUM = Raise IndexError).
  { unfold offset_regions_outward. cbn [mapM].
    rewrite !offset_region_outward_first_contour by apply MIN_DEPTH_half_nonzero.
    reflexivity. }
  split; [exact Hout |].
  unfold get_openspace, get_candidate_regions, offset_regions_inward.
  rewrite Reqb_false by apply MIN_DEPTH_half_nonzero.
  cbn [bind polyline_offset app holes snd lot_region lot site_with_pockets new_Lot
       parking_region building building_regions site_building new_Building
       PolylineOffset tabulated flat_map sh_holes site_parking site_footprint].
  cbn [filter_inward_regions hits_building existsb has_region_intersection
       building building_regions site_with_pockets site_building new_Building
       PlanarClosedCurveRelationship tabulated sh_class pocket pocket_degenerate
       RegionContainment_eqb orb].
  match goal with
  | |- bind ?m _ = _ => replace m with (@Raise (list shape) IndexError) by (symmetry; exact Hout)
  end.
  reflexivity.
Qed.

(** ** The pipeline on the site *)

Lemma site_requirement : requirement_area (requirement site) = 250.
Proof.
  cbn [requirement site new_OpenspaceRequirement requirement_area].
  unfold _get_target_information.
  change (str_in (lot_district_use site_lot) district_uses) with true.
  change (str_in (building_use site_building) building_uses) with true.
  cbn [negb]. rewrite site_total_area, site_lot_area.
  rewrite Rltb_false by lra.
  unfold py_max, AREA_RATIO, MIN_AREA. rewrite Rltb_false by lra. lra.
Qed.

Lemma site_candidates : get_candidate_regions site = Ok [cand_a; cand_b].
Proof.
  unfold get_candidate_regions, offset_regions_inward.
  rewrite Reqb_false by apply MIN_DEPTH_half_nonzero.
  cbn. unfold offset_region_outward.
  rewrite Reqb_false by apply MIN_DEPTH_half_nonzero.
  reflexivity.
Qed.

Lemma site_filter : filter_candidate_regions site [cand_a; cand_b] = [cand_a; cand_b].
Proof.
  unfold filter_candidate_regions, is_road_adjacent.
  cbn [filter is_road_adjacent_loop roads site].
  unfold get_overlap_length. rewrite !tabulated_overlap.
  cbn [map sh_pieces cand_a cand_b plain fold_left GetLength tabulated piece
       sh_side lot_region lot site site_lot new_Lot site_lot_region].
  unfold ROAD_ADJUST_RATIO.
  rewrite !Rltb_true by lra. cbn [filter].
  unfold MIN_AREA. cbn [Area tabulated sh_side cand_a cand_b plain].
  rewrite !Rleb_true by lra. reflexivity.
Qed.

Lemma site_sort : sort_candidate_regions (K := tabulated) [cand_a; cand_b] = [cand_a; cand_b].
Proof.
  unfold sort_candidate_regions. cbn [sorted_reverse insert_desc].
  cbn [Area tabulated sh_side cand_a cand_b plain].
  rewrite Rltb_false by lra. reflexivity.
Qed.

Lemma sqrt_quarter : sqrt ((250 - (0.0 + 15 * 15)) / (10 * 10)) = 1 / 2.
Proof.
  replace ((250 - (0.0 + 15 * 15)) / (10 * 10)) with ((1 / 2) * (1 / 2)) by lra.
  apply sqrt_square. lra.
Qed.

(** End to end: the first candidate (225 m2) is taken as it is, the second
    (100 m2) is scaled by 1/2 about the middle of its frontage, to the 25 m2
    that were missing. *)
Lemma site_openspace :
  get_openspace site = Ok [cand_a; shape_scale cand_b (0.5 * 15, 0) (1 / 2)].
Proof.
  unfold get_openspace. rewrite site_candidates. cbn [bind].
  rewrite site_filter, site_sort.
  unfold adjust_candidate_regions.
  rewrite adjust_loop_cons, site_requirement.
  cbn [Area tabulated sh_side cand_a plain].
  rewrite Rltb_false by lra. cbn [bind fst snd].
  rewrite Rleb_false by lra.
  rewrite adjust_loop_cons, site_requirement.
  cbn [Area tabulated sh_side cand_b plain].
  rewrite Rltb_true by lra.
  rewrite reduce_region_shrink by (cbn; lra).
  rewrite tabulated_overlap.
  cbn [map sh_pieces cand_b plain bind fst snd PointAt Scale tabulated piece sh_side
       Area shape_scale app].
  rewrite sqrt_quarter.
  rewrite Rleb_true by lra. reflexivity.
Qed.

(** ** Overlap measurement *)

Lemma fold_left_lengths (K : Kernel) (crvs : list (Curve K)) (a : R) :
  fold_left (fun length crv => length + GetLength crv) crvs a
  = a + py_sum (map GetLength crvs).
Proof.
  revert a. induction crvs as [| c crvs IH]; intro a; cbn [fold_left map].
  - unfold py_sum. cbn [fold_left]. lra.
  - rewrite IH, py_sum_cons. lra.
Qed.

Lemma py_sum_nonneg (xs : list R) : Forall (fun x => 0 <= x) xs -> 0 <= py_sum xs.
Proof.
  induction 1 as [| x xs Hx _ IH].
  - unfold py_sum. cbn. lra.
  - rewrite py_sum_cons. lra.
Qed.

Lemma get_overlap_crv_no_collision (K : Kernel) (a b : Curve K) :
  PlanarCurveCollision a b TOL = false -> get_overlap_crv a b = [].
Proof. intro H. unfold get_overlap_crv. now rewrite H. Qed.

Lemma get_overlap_length_py_sum (K : Kernel) (a b : Curve K) :
  get_overlap_length a b = py_sum (map GetLength (get_overlap_crv a b)).
Proof.
  unfold get_overlap_length.
  destruct (get_overlap_crv a b) as [| c crvs] eqn:E.
  - unfold py_sum. cbn. lra.
  - rewrite fold_left_lengths. lra.
Qed.

(** The overlap length is the sum of the lengths of the overlap curves in
    every case (the guard for an empty result changes nothing); it is 0 when
    the two curves do not collide, and not negative when no overlap curve has
    a negative length. *)
Theorem get_overlap_length_sum (K : Kernel) (crv_a crv_b : Curve K) :
  get_overlap_length crv_a crv_b = py_sum (map GetLength (get_overlap_crv crv_a crv_b)) /\
  (PlanarCurveCollision crv_a crv_b TOL = false -> get_overlap_length crv_a crv_b = 0) /\
  (Forall (fun crv => 0 <= GetLength crv) (get_overlap_crv crv_a crv_b) ->
   0 <= get_overlap_length crv_a crv_b).
Proof.
  split; [apply get_overlap_length_py_sum |]. split.
  - intro H. rewrite get_overlap_length_py_sum, get_overlap_crv_no_collision by exact H.
    reflexivity.
  - intro H. rewrite get_overlap_length_py_sum. apply py_sum_nonneg.
    now apply Forall_map.
Qed.

(** ** Road adjacency *)

Lemma is_road_adjacent_loop_app (K : Kernel) (self : OepnspaceGenerator K)
    (rs rs' : list (Road K)) (c : Curve K) :
  is_road_adjacent_loop self (rs ++ rs') c
  = is_road_adjacent_loop self rs c || is_road_adjacent_loop self rs' c.
Proof.
  induction rs as [| r rs IH]; cbn [app is_road_adjacent_loop orb]; [reflexivity |].
  destruct (Rltb _ _); [reflexivity | exact IH].
Qed.

(** The lot region itself passes the road test exactly when it has a
    positive overlap length with some road: a quarter of a length is below
    that length only if the length is positive. *)
Theorem lot_region_is_road_adjacent (K : Kernel) (self : OepnspaceGenerator K) :
  is_road_adjacent self (lot_region (lot self)) = true <->
  exists r, In r (roads self) /\
            0 < get_overlap_length (lot_region (lot self)) (road_curve r).
Proof.
  unfold is_road_adjacent. rewrite is_road_adjacent_loop_exists.
  unfold ROAD_ADJUST_RATIO.
  split; intros [r [Hin Hr]]; exists r; (split; [exact Hin | lra]).
Qed.

(** A candidate that collides with no road is never kept, as long as the lot
    has no negative overlap length with a road. *)
Theorem filter_drops_candidates_off_the_roads (K : Kernel) (self : OepnspaceGenerator K)
    (candidates : list (Curve K)) (c : Curve K) :
  (forall r, In r (roads self) ->
             0 <= get_overlap_length (lot_region (lot self)) (road_curve r)) ->
  (forall r, In r (roads self) -> PlanarCurveCollision c (road_curve r) TOL = false) ->
  ~ In c (filter_candidate_regions self candidates).
Proof.
  intros Hlot Hc Hin. unfold filter_candidate_regions in Hin.
  rewrite !filter_In in Hin. destruct Hin as [[_ Hadj] _].
  unfold is_road_adjacent in Hadj. apply is_road_adjacent_loop_exists in Hadj.
  destruct Hadj as [r [Hr Hlt]].
  rewrite (get_overlap_length_py_sum K c), get_overlap_crv_no_collision in Hlt
    by now apply Hc.
  specialize (Hlot r Hr). unfold ROAD_ADJUST_RATIO, py_sum in Hlt. cbn in Hlt. lra.
Qed.

Lemma site_road_overlap :
  get_overlap_length (K := tabulated) (lot_region (lot site)) (road_curve site_road) = 50.
Proof.
  rewrite get_overlap_length_py_sum, tabulated_overlap. cbn. unfold py_sum. cbn. lra.
Qed.

(** On the site, the candidate inside the lot, with no piece of its boundary
    on a road, is not kept. *)
Lemma filter_drops_candidates_off_the_roads_site :
  ~ In cand_inner (filter_candidate_regions site [cand_a; cand_inner; cand_b]).
Proof.
  apply (filter_drops_candidates_off_the_roads tabulated site).
  - intros r [<- | []]. rewrite site_road_overlap. lra.
  - intros r [<- | []]. reflexivity.
Defined.

(** ** Filters as list operations *)

Lemma filter_twice (A : Type) (f g : A -> bool) (l : list A) :
  filter f (filter g l) = filter (fun x => g x && f x) l.
Proof.
  induction l as [| x l IH]; cbn [filter]; [reflexivity |].
  destruct (g x); cbn [filter andb]; [| exact IH].
  destruct (f x); now rewrite IH.
Qed.

Lemma filter_candidate_regions_filter (K : Kernel) (self : OepnspaceGenerator K)
    (l : list (Curve K)) :
  filter_candidate_regions self l
  = filter (fun x => is_road_adjacent self x && Rleb MIN_AREA (Area x)) l.
Proof. unfold filter_candidate_regions. apply filter_twice. Qed.

Lemma filter_inward_regions_filter (K : Kernel) (self : OepnspaceGenerator K)
    (l : list (Curve K)) :
  filter_inward_regions self l = filter (fun r => negb (hits_building self r)) l.
Proof.
  induction l as [| r l IH]; cbn [filter_inward_regions filter]; [reflexivity |].
  destruct (hits_building self r); cbn [negb]; now rewrite IH.
Qed.

Lemma filter_idempotent (A : Type) (f : A -> bool) (l : list A) :
  filter f (filter f l) = filter f l.
Proof.
  rewrite filter_twice. apply filter_ext. intro x. now destruct (f x).
Qed.

Lemma filter_length_le' (A : Type) (f : A -> bool) (l : list A) :
  (List.length (filter f l) <= List.length l)%nat.
Proof.
  induction l as [| x l IH]; cbn [filter List.length]; [apply le_n |].
  destruct (f x); cbn [List.length].
  - now apply le_n_S.
  - now apply le_S.
Qed.

(** The candidate filter judges each candidate on its own and keeps the
    order: it distributes over concatenation, filtering twice changes
    nothing, and the output is never longer than the input. *)
Theorem filter_candidate_regions_pointwise (K : Kernel) (self : OepnspaceGenerator K)
    (l1 l2 : list (Curve K)) :
  filter_candidate_regions self (l1 ++ l2)
  = filter_candidate_regions self l1 ++ filter_candidate_regions self l2 /\
  filter_candidate_regions self (filter_candidate_regions self l1)
  = filter_candidate_regions self l1 /\
  (List.length (filter_candidate_regions self l1) <= List.length l1)%nat.
Proof.
  rewrite !filter_candidate_regions_filter. split; [| split].
  - apply filter_app.
  - apply filter_idempotent.
  - apply filter_length_le'.
Qed.

(** Adding roads to a site never loses a candidate: what the filter keeps
    with some roads, it keeps with more roads around the same lot. *)
Theorem more_roads_keep_candidates (K : Kernel) (self self' : OepnspaceGenerator K)
    (candidates : list (Curve K)) :
  lot self' = lot self ->
  incl (roads self) (roads self') ->
  incl (filter_candidate_regions self candidates)
       (filter_candidate_regions self' candidates).
Proof.
  intros Hlot Hroads c. rewrite !filter_candidate_regions_filter, !filter_In.
  intros [Hin Hc]. split; [exact Hin |].
  apply andb_true_iff in Hc. destruct Hc as [Hadj Harea].
  apply andb_true_iff. split; [| exact Harea].
  unfold is_road_adjacent in *.
  apply is_road_adjacent_loop_exists in Hadj. destruct Hadj as [r [Hr Hlt]].
  apply is_road_adjacent_loop_exists. exists r. split; [now apply Hroads |].
  now rewrite Hlot.
Qed.

(** Step 3 of the generator judges each inward region on its own: it
    distributes over concatenation, doing it twice changes nothing, and with
    no building region at all it discards nothing. *)
Theorem filter_inward_regions_pointwise (K : Kernel) (self : OepnspaceGenerator K)
    (l1 l2 : list (Curve K)) :
  filter_inward_regions self (l1 ++ l2)
  = filter_inward_regions self l1 ++ filter_inward_regions self l2 /\
  filter_inward_regions self (filter_inward_regions self l1)
  = filter_inward_regions self l1 /\
  (building_regions (building self) = [] -> filter_inward_regions self l1 = l1).
Proof.
  rewrite !filter_inward_regions_filter. split; [| split].
  - apply filter_app.
  - apply filter_idempotent.
  - intro Hnone. unfold hits_building. rewrite Hnone. cbn [existsb negb].
    induction l1 as [| r l IH]; cbn [filter]; [reflexivity | now rewrite IH].
Qed.

(** ** Ranking composed with filtering *)

Section SortingMore.

Variable A : Type.
Variable key : A -> R.

Lemma insert_desc_head (x : A) (l : list A) :
  Forall (key_ge key x) l -> insert_desc key x l = x :: l.
Proof.
  intros H. destruct H as [| y l Hy _]; cbn [insert_desc]; [reflexivity |].
  unfold key_ge in Hy. now rewrite Rltb_false.
Qed.

Lemma sorted_reverse_of_sorted (l : list A) :
  StronglySorted (key_ge key) l -> sorted_reverse key l = l.
Proof.
  induction 1 as [| x l Hs IH Hall]; cbn [sorted_reverse]; [reflexivity |].
  rewrite IH. now apply insert_desc_head.
Qed.

Lemma filter_insert_desc (p : A -> bool) (x : A) (l : list A) :
  StronglySorted (key_ge key) l ->
  filter p (insert_desc key x l)
  = if p x then insert_desc key x (filter p l) else filter p l.
Proof.
  induction 1 as [| y l Hs IH Hall]; cbn [insert_desc filter].
  - destruct (p x); reflexivity.
  - destruct (Rltb_spec (key x) (key y)) as [Hlt | Hge]; cbn [filter].
    + rewrite IH. destruct (p y), (p x); cbn [insert_desc]; try reflexivity.
      now rewrite Rltb_true.
    + change (if p y then y :: filter p l else filter p l) with (filter p (y :: l)).
      destruct (p x); [| reflexivity].
      symmetry. apply insert_desc_head.
      assert (Hx : Forall (key_ge key x) (y :: l)).
      { constructor; [unfold key_ge; lra |].
        eapply Forall_impl; [| exact Hall].
        unfold key_ge. intros z Hz. lra. }
      apply Forall_forall. intros z Hz.
      apply filter_In in Hz. destruct Hz as [Hz _].
      now apply (proj1 (Forall_forall _ _) Hx).
Qed.

Lemma filter_sorted_reverse (p : A -> bool) (l : list A) :
  filter p (sorted_reverse key l) = sorted_reverse key (filter p l).
Proof.
  induction l as [| x l IH]; cbn [sorted_reverse filter]; [reflexivity |].
  rewrite filter_insert_desc by apply sorted_reverse_sorted.
  destruct (p x); cbn [sorted_reverse]; now rewrite IH.
Qed.

End SortingMore.

(** Ranking a list that is already in descending order of area leaves it as
    it is, so ranking twice is ranking once; and ranking keeps the number of
    candidates. *)
Theorem sort_candidate_regions_idempotent (K : Kernel) (candidates : list (Curve K)) :
  (StronglySorted (fun a b => Area b <= Area a) candidates ->
   sort_candidate_regions candidates = candidates) /\
  sort_candidate_regions (sort_candidate_regions candidates)
  = sort_candidate_regions candidates /\
  List.length (sort_candidate_regions candidates) = List.length candidates.
Proof.
  unfold sort_candidate_regions. split; [| split].
  - apply (sorted_reverse_of_sorted _ Area).
  - apply (sorted_reverse_of_sorted _ Area), sorted_reverse_sorted.
  - symmetry. apply Permutation_length, sorted_reverse_perm.
Qed.

(** Stages 2 and 3 of the pipeline commute: filtering the ranked candidates
    gives the same list as ranking the filtered ones. *)
Theorem filter_sort_commute (K : Kernel) (self : OepnspaceGenerator K)
    (candidates : list (Curve K)) :
  filter_candidate_regions self (sort_candidate_regions candidates)
  = sort_candidate_regions (filter_candidate_regions self candidates).
Proof.
  rewrite !filter_candidate_regions_filter. unfold sort_candidate_regions.
  apply filter_sorted_reverse.
Qed.

(** ** More on the fitter *)

Lemma ratio_bounds (t a : R) : 0 <= t -> t < a -> 0 <= t / a < 1.
Proof.
  intros H0 Hlt.
  assert (Ha : 0 < / a) by (apply Rinv_0_lt_compat; lra).
  unfold Rdiv. split.
  - apply Rmult_le_pos; lra.
  - replace 1 with (a * / a) by (field; lra).
    now apply Rmult_lt_compat_r.
Qed.

Lemma sqrt_ratio_bounds (t a : R) : 0 <= t -> t < a -> 0 <= sqrt (t / a) < 1.
Proof.
  intros H0 Hlt. destruct (ratio_bounds t a H0 Hlt) as [Hr0 Hr1].
  split; [apply sqrt_pos |].
  rewrite <- sqrt_1. apply sqrt_lt_1; lra.
Qed.

Lemma total_area_at_least (K : Kernel) (m : R) (l : list (Curve K)) :
  (forall c, In c l -> m <= Area c) -> m * INR (List.length l) <= total_area l.
Proof.
  induction l as [| c l IH]; intro H.
  - rewrite total_area_nil. cbn. lra.
  - rewrite total_area_cons. change (List.length (c :: l)) with (S (List.length l)).
    rewrite S_INR.
    assert (m <= Area c) by (apply H; now left).
    assert (m * INR (List.length l) <= total_area l)
      by (apply IH; intros d Hd; apply H; now right).
    lra.
Qed.

Section FitterMore.

Context {K : Kernel}.
Variable self : OepnspaceGenerator K.

Lemma adjust_loop_unmet (cands : list (Curve K)) :
  forall (adj : list (Curve K)) (total : R),
  (forall c, In c cands -> 0 <= Area c) ->
  total + total_area cands < requirement_area (requirement self) ->
  adjust_loop self cands adj total = Ok (adj ++ cands).
Proof.
  induction cands as [| c rest IH]; intros adj total Hpos Hlt.
  - cbn [adjust_loop]. now rewrite app_nil_r.
  - rewrite total_area_cons in Hlt.
    assert (Hc : 0 <= Area c) by (apply Hpos; now left).
    assert (Hrest : 0 <= total_area rest).
    { pose proof (total_area_at_least K 0 rest) as H. rewrite Rmult_0_l in H.
      apply H. intros d Hd. apply Hpos. now right. }
    rewrite adjust_loop_cons. rewrite Rltb_false by lra. cbn [bind fst snd].
    rewrite Rleb_false by lra.
    rewrite IH; [now rewrite <- app_assoc | | lra].
    intros d Hd. apply Hpos. now right.
Qed.

Lemma adjust_loop_shape (cands : list (Curve K)) :
  forall (adj : list (Curve K)) (total : R) (accepted : list (Curve K)),
  total <= requirement_area (requirement self) ->
  adjust_loop self cands adj total = Ok accepted ->
  exists taken,
    accepted = adj ++ taken /\
    Forall2 (kept_or_shrunk self) taken (firstn (List.length taken) cands).
Proof.
  set (Rq := requirement_area (requirement self)).
  induction cands as [| c rest IH]; intros adj total accepted Hle Hrun.
  - cbn [adjust_loop] in Hrun. injection Hrun as <-.
    exists []. rewrite app_nil_r. split; [reflexivity | constructor].
  - rewrite adjust_loop_cons in Hrun. fold Rq in Hrun.
    assert (Hnext : forall x a,
               kept_or_shrunk self x c ->
               (if Rleb Rq (total + a)
                then Ok (adj ++ [x])
                else adjust_loop self rest (adj ++ [x]) (total + a)) = Ok accepted ->
               exists taken,
                 accepted = adj ++ taken /\
                 Forall2 (kept_or_shrunk self) taken
                         (firstn (List.length taken) (c :: rest))).
    { intros x a Hx Hcont.
      destruct (Rleb_spec Rq (total + a)) as [Hstop | Hgo].
      - injection Hcont as <-. exists [x]. split; [reflexivity |].
        cbn [List.length firstn]. constructor; [exact Hx | constructor].
      - apply IH in Hcont; [| lra]. destruct Hcont as [taken [-> Hall]].
        exists (x :: taken). rewrite <- app_assoc. split; [reflexivity |].
        cbn [List.length firstn]. constructor; assumption. }
    destruct (Rltb_spec Rq (total + Area c)) as [Hover | Hfit].
    + rewrite reduce_region_shrink in Hrun by lra.
      destruct (get_overlap_crv c (lot_region (lot self))) as [| crv crvs] eqn:Hov;
        [discriminate |].
      cbn [bind fst snd] in Hrun.
      apply Hnext in Hrun; [exact Hrun |].
      right. exists crv, crvs, (sqrt ((Rq - total) / Area c)).
      split; [exact Hov |]. split; [apply sqrt_ratio_bounds; lra | reflexivity].
    + cbn [bind fst snd] in Hrun.
      apply Hnext in Hrun; [exact Hrun | now left].
Qed.

Lemma adjust_loop_raises (cands : list (Curve K)) :
  forall (adj : list (Curve K)) (total : R) (e : PyError),
  total <= requirement_area (requirement self) ->
  adjust_loop self cands adj total = Raise e ->
  e = IndexError.
Proof.
  set (Rq := requirement_area (requirement self)).
  induction cands as [| c rest IH]; intros adj total e Hle Hrun.
  - discriminate.
  - rewrite adjust_loop_cons in Hrun. fold Rq in Hrun.
    destruct (Rltb_spec Rq (total + Area c)) as [Hover | Hfit].
    + rewrite reduce_region_shrink in Hrun by lra.
      destruct (get_overlap_crv c (lot_region (lot self))) as [| crv crvs];
        cbn [bind fst snd] in Hrun; [congruence |].
      destruct (Rleb_spec Rq (total + Area (Scale c (PointAt crv 0.5)
                                              (sqrt ((Rq - total) / Area c)))))
        as [Hstop | Hgo]; [discriminate |].
      apply IH in Hrun; [exact Hrun | lra].
    + cbn [bind fst snd] in Hrun.
      destruct (Rleb_spec Rq (total + Area c)) as [Hstop | Hgo]; [discriminate |].
      apply IH in Hrun; [exact Hrun | lra].
Qed.

End FitterMore.

(** When the ranked candidates do not add up to the requirement, the fitter
    returns all of them as they are: nothing is scaled, so the overlap with
    the lot boundary is never looked at and nothing can raise. *)
Theorem unmet_requirement_returns_all (K : Kernel) (self : OepnspaceGenerator K)
    (ranked : list (Curve K)) :
  (forall c, In c ranked -> 0 <= Area c) ->
  total_area ranked < requirement_area (requirement self) ->
  adjust_candidate_regions self ranked = Ok ranked.
Proof.
  intros Hpos Hlt. unfold adjust_candidate_regions.
  rewrite adjust_loop_unmet; [reflexivity | exact Hpos | lra].
Qed.

Lemma site_candidates_nonneg (c : shape) :
  In c [cand_a; cand_b] -> 0 <= Area (k := tabulated) c.
Proof. intros _. cbn. apply Rle_0_sqr. Qed.

(** On the site with 1000 m2 required, the 325 m2 of candidates come back
    untouched. *)
Lemma unmet_requirement_returns_all_site :
  adjust_candidate_regions (site_requiring 1000) [cand_a; cand_b]
  = Ok [cand_a; cand_b].
Proof.
  apply (unmet_requirement_returns_all tabulated (site_requiring 1000)).
  - exact site_candidates_nonneg.
  - rewrite site_candidates_total. cbn. lra.
Defined.

(** The fitter never enlarges or reorders: the i-th accepted region is the
    i-th ranked candidate, either as it is or scaled by a factor in [0, 1)
    about the middle of its first overlap curve with the lot boundary; so the
    output is never longer than the input, and over a kernel that follows the
    scaling law no accepted region has more area than its candidate. *)
Theorem accepted_regions_kept_or_shrunk (K : Kernel) (self : OepnspaceGenerator K)
    (ranked accepted : list (Curve K)) :
  0 <= requirement_area (requirement self) ->
  adjust_candidate_regions self ranked = Ok accepted ->
  Forall2 (kept_or_shrunk self) accepted (firstn (List.length accepted) ranked) /\
  (List.length accepted <= List.length ranked)%nat /\
  (KernelLaws K ->
   Forall2 (fun a r => Area a <= Area r) accepted
           (firstn (List.length accepted) ranked)).
Proof.
  intros Hreq Hrun. unfold adjust_candidate_regions in Hrun.
  apply adjust_loop_shape in Hrun; [| lra].
  destruct Hrun as [taken [-> Hall]]. cbn [app].
  split; [exact Hall |]. split.
  - apply Forall2_length in Hall. rewrite length_firstn in Hall.
    rewrite Hall at 1. apply Nat.le_min_r.
  - intro laws. eapply Forall2_impl; [| exact Hall].
    intros a r [-> | [crv [crvs [f [_ [[Hf0 Hf1] ->]]]]]]; [lra |].
    rewrite (Scale_Area K laws) by assumption.
    pose proof (Area_nonneg K laws r) as Hr.
    assert (f * f <= 1) by nra. nra.
Qed.

(** On the site: the first candidate kept, the second shrunk. *)
Lemma accepted_regions_kept_or_shrunk_site :
  Forall2 (kept_or_shrunk site)
          [cand_a; shape_scale cand_b (0.5 * 15, 0) (1 / 2)]
          (firstn 2 [cand_a; cand_b]).
Proof.
  assert (Hreq : 0 <= requirement_area (requirement site))
    by (rewrite site_requirement; lra).
  assert (Hrun : adjust_candidate_regions site [cand_a; cand_b]
                 = Ok [cand_a; shape_scale cand_b (0.5 * 15, 0) (1 / 2)]).
  { pose proof site_openspace as H. unfold get_openspace in H.
    rewrite site_candidates in H. cbn [bind] in H.
    now rewrite site_filter, site_sort in H. }
  exact (proj1 (accepted_regions_kept_or_shrunk tabulated site
                  [cand_a; cand_b] _ Hreq Hrun)).
Defined.

Lemma mapM_Raise_inv (A B : Type) (f : A -> result B) (xs : list A) (e : PyError) :
  mapM f xs = Raise e -> exists x, In x xs /\ f x = Raise e.
Proof.
  induction xs as [| x xs IH]; cbn [mapM]; [discriminate |].
  destruct (f x) as [y | e'] eqn:Hx; cbn [bind].
  - destruct (mapM f xs) as [ys | e'']; cbn [bind]; [discriminate |].
    intro H. injection H as <-.
    destruct (IH eq_refl) as [x0 [Hin Hx0]]. exists x0. split; [now right | exact Hx0].
  - intro H. injection H as <-. exists x. split; [now left | exact Hx].
Qed.

Lemma get_candidate_regions_raises (K : Kernel) (self : OepnspaceGenerator K)
    (e : PyError) :
  get_candidate_regions self = Raise e -> e = IndexError.
Proof.
  unfold get_candidate_regions, offset_regions_inward.
  rewrite Reqb_false by apply MIN_DEPTH_half_nonzero.
  cbn [app polyline_offset bind]. unfold offset_regions_outward. intro H.
  apply mapM_Raise_inv in H. destruct H as [x [_ Hx]].
  rewrite offset_region_outward_first_contour in Hx by apply MIN_DEPTH_half_nonzero.
  destruct (fst (PolylineOffset [x] (MIN_DEPTH / 2) BIGNUM)); congruence.
Qed.

(** With a requirement that is not negative, the only exception the fitter
    and the whole pipeline can raise is [IndexError] (an empty contour or an
    empty overlap): the generator always has curves to offset, the fitter
    never divides by a zero area and never takes the root of a negative
    ratio. *)
Theorem pipeline_raises_only_IndexError (K : Kernel) (self : OepnspaceGenerator K) :
  0 <= requirement_area (requirement self) ->
  (forall ranked e, adjust_candidate_regions self ranked = Raise e -> e = IndexError) /\
  (forall e, get_candidate_regions self = Raise e -> e = IndexError) /\
  (forall e, get_openspace self = Raise e -> e = IndexError).
Proof.
  intro Hreq.
  assert (Hfit : forall ranked e,
             adjust_candidate_regions self ranked = Raise e -> e = IndexError).
  { intros ranked e H. unfold adjust_candidate_regions in H.
    apply adjust_loop_raises in H; [exact H | lra]. }
  split; [exact Hfit |]. split; [apply get_candidate_regions_raises |].
  intros e. unfold get_openspace.
  destruct (get_candidate_regions self) as [candidates | e'] eqn:Hgen; cbn [bind].
  - apply Hfit.
  - intro H. injection H as <-. now apply (get_candidate_regions_raises K self).
Qed.

(** On the site with 100 m2 required and a first candidate away from the lot
    boundary, what the fitter raises is an [IndexError]. *)
Lemma pipeline_raises_only_IndexError_site :
  match adjust_candidate_regions (site_requiring 100) [cand_inner; cand_b] with
  | Ok _ => False
  | Raise e => e = IndexError
  end.
Proof.
  assert (Hreq : 0 <= requirement_area (requirement (site_requiring 100)))
    by (cbn; lra).
  destruct (pipeline_raises_only_IndexError tabulated (site_requiring 100) Hreq)
    as [Hfit _].
  destruct (adjust_candidate_regions (site_requiring 100) [cand_inner; cand_b])
    as [accepted | e] eqn:Hrun.
  - unfold adjust_candidate_regions in Hrun. rewrite adjust_loop_cons in Hrun.
    rewrite Rltb_true in Hrun by (cbn; lra).
    rewrite reduce_region_shrink in Hrun by (cbn; lra).
    rewrite tabulated_overlap in Hrun. discriminate.
  - now apply (Hfit [cand_inner; cand_b]).
Defined.

(** ** More on the requirement evaluator *)

Lemma requirement_area_unfold (K : Kernel) (l : Lot K) (b : Building K) :
  requirement_area (new_OpenspaceRequirement l b)
  = if str_in (lot_district_use l) district_uses
       && str_in (building_use b) building_uses
       && Rleb 5000 (building_total_area b)
    then Rmax (lot_area l * 0.1) 90
    else 0.
Proof.
  cbn [new_OpenspaceRequirement requirement_area]. unfold _get_target_information.
  destruct (str_in (lot_district_use l) district_uses); cbn [negb andb];
    [| reflexivity].
  destruct (str_in (building_use b) building_uses); cbn [negb andb];
    [| reflexivity].
  destruct (Rltb_spec (building_total_area b) 5000) as [Hlt | Hge].
  - now rewrite Rleb_false.
  - rewrite Rleb_true by lra. rewrite py_max_Rmax.
    unfold AREA_RATIO, MIN_AREA. f_equal; lra.
Qed.

(** Where the 90 m2 floor applies: a requirement that is not 0 is 90 for a
    lot of at most 900 m2 and a tenth of the lot area for a lot of at least
    900 m2. *)
Theorem requirement_floor_at_900 (K : Kernel) (l : Lot K) (b : Building K) :
  let a := requirement_area (new_OpenspaceRequirement l b) in
  a = 0 \/
  (lot_area l <= 900 /\ a = 90) \/
  (900 <= lot_area l /\ a = lot_area l * 0.1).
Proof.
  cbn zeta. rewrite requirement_area_unfold.
  destruct (_ && _ && _); [right | now left].
  unfold Rmax. destruct (Rle_dec (lot_area l * 0.1) 90); [left | right]; split; lra.
Qed.

(** The requirement does not decrease with the lot area: of two lots in the
    same district with the same building, the larger never has the smaller
    requirement. *)
Theorem requirement_monotone_in_lot_area (K : Kernel) (l1 l2 : Lot K) (b : Building K) :
  lot_district_use l1 = lot_district_use l2 ->
  lot_area l1 <= lot_area l2 ->
  requirement_area (new_OpenspaceRequirement l1 b)
  <= requirement_area (new_OpenspaceRequirement l2 b).
Proof.
  intros Huse Harea. rewrite !requirement_area_unfold, Huse.
  destruct (_ && _ && _); [| lra].
  apply Rle_max_compat_r. lra.
Qed.

(** A lot of 400 m2 against the site's lot of 2500 m2, same district, same
    building. *)
Lemma requirement_monotone_in_lot_area_site :
  requirement_area
    (new_OpenspaceRequirement (new_Lot (K := tabulated) (plain 20 []) "일반주거지역")
                              site_building)
  <= requirement_area (new_OpenspaceRequirement site_lot site_building).
Proof.
  apply (requirement_monotone_in_lot_area tabulated
           (new_Lot (K := tabulated) (plain 20 []) "일반주거지역") site_lot site_building).
  - reflexivity.
  - cbn. lra.
Defined.

(** What the constructor of [Building] derives: the floor area is the sum of
    the footprint areas and the total area that sum times the floor count;
    so a building without a footprint, or with no floor over footprints of
    non-negative area, has a total area of at most 0 and never triggers the
    requirement. *)
Theorem building_without_floor_area (K : Kernel) (l : Lot K)
    (regions : list (Curve K)) (floor_count : Z) (use : string) :
  regions = [] \/ ((floor_count <= 0)%Z /\ forall c, In c regions -> 0 <= Area c) ->
  building_floor_area (new_Building regions floor_count use) = total_area regions /\
  building_total_area (new_Building regions floor_count use)
  = total_area regions * IZR floor_count /\
  building_total_area (new_Building regions floor_count use) <= 0 /\
  requirement_area (new_OpenspaceRequirement l (new_Building regions floor_count use)) = 0.
Proof.
  intro H.
  assert (Htotal : building_total_area (new_Building regions floor_count use) <= 0).
  { cbn [new_Building building_total_area]. fold (total_area regions).
    destruct H as [-> | [Hcount Hpos]].
    - rewrite total_area_nil. lra.
    - assert (0 <= total_area regions).
      { pose proof (total_area_at_least K 0 regions) as H0.
        rewrite Rmult_0_l in H0. now apply H0. }
      assert (IZR floor_count <= 0) by (now apply (IZR_le floor_count 0)).
      nra. }
  split; [reflexivity |]. split; [reflexivity |]. split; [exact Htotal |].
  rewrite requirement_area_unfold. rewrite (Rleb_false 5000) by lra.
  now rewrite andb_false_r.
Qed.

(** The site's lot with an office building that has no footprint. *)
Lemma building_without_floor_area_site :
  requirement_area
    (new_OpenspaceRequirement site_lot (new_Building (K := tabulated) [] 5 "업무시설"))
  = 0.
Proof.
  apply (building_without_floor_area tabulated site_lot [] 5 "업무시설").
  now left.
Defined.

(** ** What the generator returns *)

(** What the generator returns, when it returns: one candidate per hole of
    the inward offset (by half of [MIN_DEPTH], 4.5) of the lot region, the
    parking region and the building regions that is [Disjoint] from every
    building region, in the order of the holes, each the first contour of the
    outward offset of its hole by the same distance. *)
Theorem get_candidate_regions_from_holes (K : Kernel) (self : OepnspaceGenerator K)
    (candidates : list (Curve K)) :
  get_candidate_regions self = Ok candidates ->
  let holes :=
    snd (PolylineOffset
           ([lot_region (lot self); parking_region self]
            ++ building_regions (building self)) 4.5 BIGNUM) in
  Forall2 (fun hole c => exists rest,
                         fst (PolylineOffset [hole] 4.5 BIGNUM) = c :: rest)
          (filter_inward_regions self holes) candidates /\
  List.length candidates = List.length (filter_inward_regions self holes) /\
  (List.length candidates <= List.length holes)%nat.
Proof.
  replace 4.5 with (MIN_DEPTH / 2) by (unfold MIN_DEPTH; lra).
  unfold get_candidate_regions, offset_regions_inward.
  rewrite Reqb_false by apply MIN_DEPTH_half_nonzero.
  cbn [app polyline_offset bind holes]. unfold offset_regions_outward.
  intro H. apply mapM_Ok_Forall2 in H. cbn zeta.
  assert (Hall : Forall2 (fun hole c => exists rest,
                     fst (PolylineOffset [hole] (MIN_DEPTH / 2) BIGNUM) = c :: rest)
                   (filter_inward_regions self
                      (snd (PolylineOffset
                              (lot_region (lot self) :: parking_region self
                               :: building_regions (building self))
                              (MIN_DEPTH / 2) BIGNUM)))
                   candidates).
  { eapply Forall2_impl; [| exact H]. intros hole c Hc.
    now apply (offset_region_outward_Ok K hole c _ _ MIN_DEPTH_half_nonzero). }
  split; [exact Hall |].
  apply Forall2_length in Hall. split; [now symmetry |].
  rewrite <- Hall, filter_inward_regions_filter. apply filter_length_le'.
Qed.

(** On the site: two holes, two candidates. *)
Lemma get_candidate_regions_from_holes_site :
  List.length [cand_a; cand_b]
  = List.length
      (filter_inward_regions site
         (snd (PolylineOffset (k := tabulated)
                 ([lot_region (lot site); parking_region site]
                  ++ building_regions (building site)) 4.5 BIGNUM))).
Proof.
  exact (proj1 (proj2 (get_candidate_regions_from_holes tabulated site
                         [cand_a; cand_b] site_candidates))).
Defined.

(** ** The fitter and rounding *)

(** C1: the fitter measures the shrunk region again and tests the new total
    against the requirement exactly.  When the area measured after the
    scaling misses the target from below, the loop goes on and shrinks the
    next candidate too: two regions are returned, and the first of them is a
    modified candidate.  When it misses from above, the loop stops with a
    total above the requirement. *)
Theorem fitter_misses_by_rounding (K : Kernel) (self : OepnspaceGenerator K)
    (c1 c2 crv1 crv2 : Curve K) (crvs1 crvs2 : list (Curve K)) :
  let Rq := requirement_area (requirement self) in
  let s1 := Scale c1 (PointAt crv1 0.5) (sqrt (Rq / Area c1)) in
  let s2 := Scale c2 (PointAt crv2 0.5) (sqrt ((Rq - Area s1) / Area c2)) in
  0 <= Rq ->
  Rq < Area c1 ->
  get_overlap_crv c1 (lot_region (lot self)) = crv1 :: crvs1 ->
  get_overlap_crv c2 (lot_region (lot self)) = crv2 :: crvs2 ->
  (Area s1 < Rq -> Rq < Area s1 + Area c2 ->
   adjust_candidate_regions self [c1; c2] = Ok [s1; s2] /\ s1 <> c1) /\
  (Rq < Area s1 ->
   forall rest,
     adjust_candidate_regions self (c1 :: rest) = Ok [s1] /\ Rq < total_area [s1]).
Proof.
  cbv zeta. set (Rq := requirement_area (requirement self)).
  intros Hreq Hbig Hov1 Hov2.
  assert (Hfirst : forall rest adj,
             adjust_loop self (c1 :: rest) adj 0.0 =
             (let s1 := Scale c1 (PointAt crv1 0.5) (sqrt (Rq / Area c1)) in
              if Rleb Rq (0.0 + Area s1)
              then Ok (adj ++ [s1])
              else adjust_loop self rest (adj ++ [s1]) (0.0 + Area s1))).
  { intros rest adj. rewrite adjust_loop_cons. fold Rq.
    rewrite Rltb_true by lra.
    rewrite reduce_region_shrink by lra. rewrite Hov1. cbn [bind fst snd].
    replace (Rq - 0.0) with Rq by lra. reflexivity. }
  unfold adjust_candidate_regions. split.
  - intros Hshort Hnext. split.
    + rewrite Hfirst. cbv zeta. rewrite Rleb_false by lra.
      rewrite adjust_loop_cons. fold Rq. rewrite Rltb_true by lra.
      rewrite reduce_region_shrink by lra. rewrite Hov2. cbn [bind fst snd app].
      replace (Rq - (0.0 + Area (Scale c1 (PointAt crv1 0.5) (sqrt (Rq / Area c1)))))
        with (Rq - Area (Scale c1 (PointAt crv1 0.5) (sqrt (Rq / Area c1)))) by lra.
      destruct (Rleb _ _); reflexivity.
    + intro E. rewrite E in Hshort. lra.
  - intros Hover rest. split.
    + rewrite Hfirst. cbv zeta. now rewrite Rleb_true by lra.
    + rewrite total_area_cons, total_area_nil. lra.
Qed.

Lemma rounding_overlap (a b : shape) :
  get_overlap_crv (K := rounding) a b = map piece (sh_pieces a).
Proof.
  unfold get_overlap_crv. cbn. rewrite pieces_collide.
  unfold shape_collides. destruct (sh_pieces a); reflexivity.
Qed.

Lemma rounding_scaled_area (c : shape) (p : R * R) (x : R) :
  0 <= x ->
  Area (k := rounding) (Scale (k := rounding) c p (sqrt x))
  = x * ((1 - shortfall) * (1 - shortfall)) * Area (k := rounding) c.
Proof.
  intro Hx. cbn.
  replace (sqrt x * (1 - shortfall) * sh_side c * (sqrt x * (1 - shortfall) * sh_side c))
    with (sqrt x * sqrt x * ((1 - shortfall) * (1 - shortfall))
          * (sh_side c * sh_side c)) by ring.
  now rewrite sqrt_sqrt.
Qed.

(** Over the kernel that rounds, with 90 m2 required and candidates of
    529 m2 and 100 m2: the first is shrunk to a little under 90 m2, so the
    second is shrunk as well, and two modified regions come back. *)
Lemma fitter_misses_by_rounding_site :
  exists s1 s2,
    adjust_candidate_regions (rounding_site 90) [wide; narrow] = Ok [s1; s2] /\
    s1 <> wide.
Proof.
  assert (Hreq : 0 <= requirement_area (requirement (rounding_site 90)))
    by (cbn; lra).
  assert (Hbig : requirement_area (requirement (rounding_site 90))
                 < Area (k := rounding) wide) by (cbn; lra).
  destruct (fitter_misses_by_rounding rounding (rounding_site 90) wide narrow
              (piece 20) (piece 15) [] [] Hreq Hbig
              (rounding_overlap wide _) (rounding_overlap narrow _))
    as [Hshort _].
  eexists. eexists. apply Hshort.
  - rewrite rounding_scaled_area by (cbn; lra). cbn. unfold shortfall. lra.
  - rewrite rounding_scaled_area by (cbn; lra). cbn. unfold shortfall. lra.
Defined.

(** The same two runs in binary64.  With 90 required and areas 529 and 100:
    the first area is measured as 89.99999999999997 after the scaling, so
    the second candidate is shrunk too, to 2.8e-14.  With 200 required and an
    area of 208: the one region returned is measured as 200.00000000000003,
    above the requirement. *)
Lemma binary64_replay :
  adjust_areas_binary64 90 [529; 100]%float [] 0
  = [0x1.67ffffffffffep+6; 0x1p-45]%float /\
  PrimFloat.ltb 0x1.67ffffffffffep+6 90 = true /\
  adjust_areas_binary64 200 [208; 100]%float [] 0 = [0x1.9000000000001p+7]%float /\
  PrimFloat.ltb 200 0x1.9000000000001p+7 = true.
Proof. repeat split; vm_compute; reflexivity. Qed.

(** ** Exceptions that reach the caller *)

Lemma empty_contour_aborts (K : Kernel) (self : OepnspaceGenerator K)
    (inward : list (Curve K)) :
  offset_regions_inward
    ([lot_region (lot self); parking_region self] ++ building_regions (building self))
    (MIN_DEPTH / 2) BIGNUM = Ok inward ->
  (exists region, In region (filter_inward_regions self inward) /\
                  fst (PolylineOffset [region] (MIN_DEPTH / 2) BIGNUM) = []) ->
  get_openspace self = Raise IndexError.
Proof.
  intros Hin [region [Hregion Hempty]].
  unfold get_openspace, get_candidate_regions. rewrite Hin. cbn [bind].
  unfold offset_regions_outward.
  rewrite (mapM_Raise _ _ _ _ IndexError); [reflexivity | |].
  - intros x e' _.
    rewrite offset_region_outward_first_contour by apply MIN_DEPTH_half_nonzero.
    destruct (fst (PolylineOffset [x] (MIN_DEPTH / 2) BIGNUM)); congruence.
  - exists region. split; [exact Hregion |].
    rewrite offset_region_outward_first_contour by apply MIN_DEPTH_half_nonzero.
    now rewrite Hempty.
Qed.

(** C8, as stated, fails: on the site without roads, with an inward region
    whose outward offset has no contour, the pipeline does not return the
    empty list; the generator raises before the filter is reached. *)
Lemma no_roads_still_raises :
  roads (site_without_roads_with_pockets [pocket cand_a; pocket_degenerate]) = [] /\
  get_openspace (site_without_roads_with_pockets [pocket cand_a; pocket_degenerate])
  = Raise IndexError /\
  ~ (forall (K : Kernel) (self : OepnspaceGenerator K),
       roads self = [] -> get_openspace self = Ok []).
Proof.
  assert (Hrun : get_openspace
                   (site_without_roads_with_pockets [pocket cand_a; pocket_degenerate])
                 = Raise IndexError).
  { apply (empty_contour_aborts tabulated _ [pocket cand_a; pocket_degenerate]).
    - unfold offset_regions_inward.
      rewrite Reqb_false by apply MIN_DEPTH_half_nonzero. reflexivity.
    - exists pocket_degenerate. split; [| reflexivity].
      cbn. right. now left. }
  split; [reflexivity |]. split; [exact Hrun |].
  intro H.
  specialize (H tabulated
                (site_without_roads_with_pockets [pocket cand_a; pocket_degenerate])
                eq_refl).
  rewrite Hrun in H. discriminate.
Qed.

(** C10: nothing guards the index, and the filter before the fitter tests the
    overlap with the roads only.  When the first ranked candidate has to be
    shrunk and has no overlap with the lot boundary, it has passed the road
    test all the same, [reduce_region] raises [IndexError], and the pipeline
    with it. *)
Theorem unguarded_index_aborts_pipeline (K : Kernel) (self : OepnspaceGenerator K)
    (candidates rest : list (Curve K)) (c : Curve K) :
  0 <= requirement_area (requirement self) ->
  get_candidate_regions self = Ok candidates ->
  sort_candidate_regions (filter_candidate_regions self candidates) = c :: rest ->
  requirement_area (requirement self) < Area c ->
  get_overlap_crv c (lot_region (lot self)) = [] ->
  In c candidates /\
  is_road_adjacent self c = true /\
  reduce_region self c (requirement_area (requirement self)) = Raise IndexError /\
  get_openspace self = Raise IndexError.
Proof.
  intros Hreq Hgen Hsort Hbig Hov.
  assert (Hc : In c (filter_candidate_regions self candidates)).
  { apply (Permutation_in c
             (Permutation_sym (sorted_reverse_perm _ Area
                                 (filter_candidate_regions self candidates)))).
    fold (sort_candidate_regions (filter_candidate_regions self candidates)).
    rewrite Hsort. now left. }
  rewrite filter_candidate_regions_filter in Hc.
  apply filter_In in Hc. destruct Hc as [Hin Hc].
  apply andb_true_iff in Hc. destruct Hc as [Hadj _].
  destruct (reduce_region_empty_overlap K self c Hreq Hbig Hov) as [Hreduce Hfit].
  split; [exact Hin |]. split; [exact Hadj |]. split; [exact Hreduce |].
  unfold get_openspace. rewrite Hgen. cbn [bind]. rewrite Hsort. apply Hfit.
Qed.

Lemma by_curve_overlap (a b : named_shape) :
  get_overlap_crv (K := by_curve) a b
  = map named_piece (filter (fun e => Nat.eqb (fst e) (ns_name b)) (ns_along a)).
Proof.
  unfold get_overlap_crv. cbn.
  assert (Hseg : forall l,
             filter (fun seg : named_shape => runs_along seg b) (map named_piece l)
             = map named_piece (filter (fun e => Nat.eqb (fst e) (ns_name b)) l)).
  { induction l as [| e l IH]; [reflexivity |].
    cbn [map filter]. unfold runs_along at 1. cbn [named_piece ns_along existsb].
    rewrite orb_false_r. destruct (Nat.eqb (fst e) (ns_name b)); cbn [map];
      now rewrite IH. }
  rewrite Hseg. unfold runs_along.
  induction (ns_along a) as [| e l IH]; [reflexivity |].
  cbn [existsb filter]. destruct (Nat.eqb (fst e) (ns_name b)); cbn [orb negb map].
  - reflexivity.
  - destruct (existsb _ l); cbn [negb] in *; [| exact IH].
    destruct (map named_piece (filter _ l)); reflexivity.
Qed.

Lemma courtyard_requirement : requirement_area (requirement courtyard_site) = 640.
Proof.
  cbn [requirement courtyard_site]. rewrite requirement_area_unfold.
  change (str_in (lot_district_use courtyard_lot) district_uses) with true.
  change (str_in (building_use courtyard_building) building_uses) with true.
  cbn [andb].
  assert (Htotal : building_total_area courtyard_building = 8000).
  { cbn. unfold py_sum. cbn. lra. }
  assert (Harea : lot_area courtyard_lot = 6400) by (cbn; lra).
  rewrite Htotal, Harea, Rleb_true by lra.
  unfold Rmax. destruct (Rle_dec _ _); lra.
Qed.

Lemma courtyard_candidates : get_candidate_regions courtyard_site = Ok [courtyard].
Proof.
  unfold get_candidate_regions, offset_regions_inward.
  rewrite Reqb_false by apply MIN_DEPTH_half_nonzero.
  cbn. unfold offset_region_outward.
  rewrite Reqb_false by apply MIN_DEPTH_half_nonzero.
  reflexivity.
Qed.

Lemma courtyard_ranked :
  sort_candidate_regions (filter_candidate_regions courtyard_site [courtyard])
  = [courtyard].
Proof.
  unfold filter_candidate_regions, is_road_adjacent.
  cbn [filter is_road_adjacent_loop roads courtyard_site].
  rewrite !get_overlap_length_py_sum, !by_curve_overlap.
  cbn [lot_region lot courtyard_site courtyard_lot new_Lot road_curve
       courtyard_street courtyard_lane courtyard courtyard_lot_region
       ns_along ns_name filter fst Nat.eqb map named_piece GetLength by_curve
       ns_side snd].
  unfold py_sum, ROAD_ADJUST_RATIO. cbn [fold_left].
  rewrite Rltb_false by lra. rewrite Rltb_true by lra. cbn [filter].
  unfold MIN_AREA. cbn [Area by_curve ns_side courtyard].
  rewrite Rleb_true by lra. reflexivity.
Qed.

(** On the courtyard site the pipeline ends in the [IndexError]: the
    courtyard, 900 m2 with 30 m on the lane and nothing on the lot boundary,
    passes the filter and has to be shrunk to the 640 m2 required. *)
Lemma unguarded_index_aborts_pipeline_site :
  get_openspace courtyard_site = Raise IndexError.
Proof.
  apply (unguarded_index_aborts_pipeline by_curve courtyard_site
           [courtyard] [] courtyard).
  - rewrite courtyard_requirement. lra.
  - exact courtyard_candidates.
  - exact courtyard_ranked.
  - rewrite courtyard_requirement. cbn. lra.
  - rewrite by_curve_overlap. reflexivity.
Defined.

(** On the site both candidates front the road; with a second road added
    they are still kept. *)
Lemma more_roads_keep_candidates_site :
  In cand_a (filter_candidate_regions site [cand_a; cand_b]) /\
  In cand_a (filter_candidate_regions site_two_roads [cand_a; cand_b]).
Proof.
  assert (Hkept : In cand_a (filter_candidate_regions site [cand_a; cand_b]))
    by (rewrite site_filter; now left).
  split; [exact Hkept |].
  apply (more_roads_keep_candidates tabulated site site_two_roads [cand_a; cand_b]).
  - reflexivity.
  - intros r [<- | []]. now left.
  - exact Hkept.
Defined.
